(** * Image grouping system: a verification development

    The repository is a face-grouping photo dashboard.  Its React/TypeScript
    front end ([frontend/src]) is embedded here function by function; the
    clustering core it talks to (the FastAPI back end) is described by the
    design document only, and is modelled from that document in the module
    [Core] below.

    Layout: the data model and the operations first (one module per source
    file), then the theorems. *)

From Stdlib Require Import List String Ascii ZArith QArith Qround Qabs Bool Arith Lia.
From Stdlib Require DecimalString.
Import ListNotations.

Set Warnings "-register-all".

Local Open Scope string_scope.
Local Open Scope list_scope.

(* ================================================================== *)
(** ** frontend/src/types/index.ts *)
(* ================================================================== *)

Module Types.

(** JavaScript numbers that carry measurements (confidence, sizes) are kept
    as rationals; counts and offsets are integers. *)
Definition number := Q.

(** The union of string literals
    ['pending' | 'processing' | 'completed' | 'failed']. *)
Inductive Status : Type :=
| pending
| processing
| completed
| failed.

(** The string a status is on the wire and in every [===] test of the views. *)
Definition literal (s : Status) : string :=
  match s with
  | pending => "pending"
  | processing => "processing"
  | completed => "completed"
  | failed => "failed"
  end.

(** [image.processing_status === 'lit'] *)
Definition status_is (s : Status) (lit : string) : bool :=
  String.eqb (literal s) lit.

(** A reified TypeScript type expression, as far as the interfaces of
    [types/index.ts] use them; the declarations below are transcriptions of
    the interfaces, field for field and in source order. *)
Inductive TsType : Type :=
| TString
| TNumber
| TNull
| TLiteral (s : string)
| TUnion (alternatives : list TsType)
| TObject (fields : list (string * TsType)).

Definition Interface := list (string * TsType).

Definition is_null (t : TsType) : bool :=
  match t with
  | TNull => true
  | _ => false
  end.

(** A field is nullable when [null] inhabits its declared type. *)
Definition nullable (t : TsType) : bool :=
  match t with
  | TNull => true
  | TUnion ts => existsb is_null ts
  | _ => false
  end.

Definition field_type (name : string) (i : Interface) : option TsType :=
  option_map snd (find (fun f => String.eqb (fst f) name) i).

Definition nullable_fields (i : Interface) : list string :=
  map fst (filter (fun f => nullable (snd f)) i).

(** The string literals a type admits ([None]: it is not a union of string
    literals). *)
Fixpoint literals_of (ts : list TsType) : option (list string) :=
  match ts with
  | [] => Some []
  | TLiteral s :: rest => option_map (cons s) (literals_of rest)
  | _ :: _ => None
  end.

Definition string_literals (t : TsType) : option (list string) :=
  match t with
  | TLiteral s => Some [s]
  | TUnion ts => literals_of ts
  | _ => None
  end.

(** A JSON value, as [response.data] is at run time: the interfaces are
    erased by the compiler, and nothing in the client checks a response
    against them. *)
Inductive Json : Type :=
| JNull
| JBool (b : bool)
| JNumber (n : number)
| JString (s : string)
| JArray (items : list Json)
| JObject (properties : list (string * Json)).

Definition property (name : string) (properties : list (string * Json)) : option Json :=
  option_map snd (find (fun p => String.eqb (fst p) name) properties).

(** [j.name]: the property of an object ([None] for [undefined]). *)
Definition field (name : string) (j : Json) : option Json :=
  match j with
  | JObject properties => property name properties
  | _ => None
  end.

(** A JSON value conforms to a type: the structural reading of the
    interfaces (an object conforms when every declared field is there with a
    conforming value; further properties are allowed). *)
Fixpoint conforms (t : TsType) (j : Json) {struct t} : bool :=
  match t with
  | TString => match j with JString _ => true | _ => false end
  | TNumber => match j with JNumber _ => true | _ => false end
  | TNull => match j with JNull => true | _ => false end
  | TLiteral s => match j with JString s' => String.eqb s' s | _ => false end
  | TUnion alternatives =>
      (fix any (ts : list TsType) : bool :=
         match ts with
         | [] => false
         | t' :: rest => conforms t' j || any rest
         end) alternatives
  | TObject fields =>
      match j with
      | JObject properties =>
          (fix all (fs : list (string * TsType)) : bool :=
             match fs with
             | [] => true
             | (name, t') :: rest =>
                 match property name properties with
                 | Some v => conforms t' v
                 | None => false
                 end && all rest
             end) fields
      | _ => false
      end
  end.

(** A nullable string or number on the wire. *)
Definition json_string (o : option string) : Json :=
  match o with
  | Some s => JString s
  | None => JNull
  end.

Definition json_number (o : option number) : Json :=
  match o with
  | Some n => JNumber n
  | None => JNull
  end.

Module Image.

Record t : Type := mk {
  id : string;
  filename : string;
  storage_key : string;
  storage_url : option string;
  mime_type : option string;
  file_size : option number;
  width : option number;
  height : option number;
  uploaded_at : string;
  processed_at : option string;
  processing_status : Status
}.

Definition decl : Interface :=
  [ ("id", TString);
    ("filename", TString);
    ("storage_key", TString);
    ("storage_url", TUnion [TString; TNull]);
    ("mime_type", TUnion [TString; TNull]);
    ("file_size", TUnion [TNumber; TNull]);
    ("width", TUnion [TNumber; TNull]);
    ("height", TUnion [TNumber; TNull]);
    ("uploaded_at", TString);
    ("processed_at", TUnion [TString; TNull]);
    ("processing_status",
       TUnion [TLiteral "pending"; TLiteral "processing";
               TLiteral "completed"; TLiteral "failed"]) ].

(** The record as JSON, field for field. *)
Definition to_json (i : t) : Json :=
  JObject
    [ ("id", JString (id i));
      ("filename", JString (filename i));
      ("storage_key", JString (storage_key i));
      ("storage_url", json_string (storage_url i));
      ("mime_type", json_string (mime_type i));
      ("file_size", json_number (file_size i));
      ("width", json_number (width i));
      ("height", json_number (height i));
      ("uploaded_at", JString (uploaded_at i));
      ("processed_at", json_string (processed_at i));
      ("processing_status", JString (literal (processing_status i))) ].

End Image.

Module BoundingBox.

Record t : Type := mk {
  x : number;
  y : number;
  width : number;
  height : number
}.

Definition to_json (b : t) : Json :=
  JObject
    [ ("x", JNumber (x b));
      ("y", JNumber (y b));
      ("width", JNumber (width b));
      ("height", JNumber (height b)) ].

End BoundingBox.

Module Face.

Record t : Type := mk {
  id : string;
  image_id : string;
  bounding_box : BoundingBox.t;
  confidence : option number;
  detected_at : string;
  person_group_id : option string
}.

Definition decl : Interface :=
  [ ("id", TString);
    ("image_id", TString);
    ("bounding_box",
       TObject [("x", TNumber); ("y", TNumber);
                ("width", TNumber); ("height", TNumber)]);
    ("confidence", TUnion [TNumber; TNull]);
    ("detected_at", TString);
    ("person_group_id", TUnion [TString; TNull]) ].

(** The names of the fields that are [null] in a given record. *)
Definition null_fields (f : t) : list string :=
  (match confidence f with None => ["confidence"] | Some _ => [] end)
  ++ (match person_group_id f with None => ["person_group_id"] | Some _ => [] end).

(** The record as JSON, field for field. *)
Definition to_json (f : t) : Json :=
  JObject
    [ ("id", JString (id f));
      ("image_id", JString (image_id f));
      ("bounding_box", BoundingBox.to_json (bounding_box f));
      ("confidence", json_number (confidence f));
      ("detected_at", JString (detected_at f));
      ("person_group_id", json_string (person_group_id f)) ].

End Face.

Module PersonGroup.

Record t : Type := mk {
  id : string;
  name : option string;
  representative_face_id : option string;
  created_at : string;
  updated_at : string
}.

Definition decl : Interface :=
  [ ("id", TString);
    ("name", TUnion [TString; TNull]);
    ("representative_face_id", TUnion [TString; TNull]);
    ("created_at", TString);
    ("updated_at", TString) ].

End PersonGroup.

Module UploadResponse.

Record t : Type := mk {
  image_id : string;
  filename : string;
  message : string
}.

End UploadResponse.

(** A browser [File]; the upload view reads its name only. *)
Record File : Type := mkFile {
  file_name : string;
  file_bytes : list nat
}.

End Types.

(* ================================================================== *)
(** ** frontend/src/services/api.ts *)
(* ================================================================== *)

Module Api.
Import Types.

Inductive Method : Type := GET | POST | DELETE.

(** What a request carries besides its query parameters. *)
Inductive Body : Type :=
| NoBody
| JsonBody (fields : list (string * string))
| FormData (entries : list (string * File)).

Record Request : Type := mkRequest {
  method : Method;
  url : string;
  params : list (string * Z);
  body : Body
}.

(** [response.data]: the accessors hand it back unchecked.  It is a record
    (or a list of records) of a declared interface, or any other JSON
    value. *)
Inductive Data : Type :=
| DVoid
| DImage (i : Image.t)
| DFace (f : Face.t)
| DGroup (g : PersonGroup.t)
| DImages (l : list Image.t)
| DFaces (l : list Face.t)
| DGroups (l : list PersonGroup.t)
| DUploads (l : list UploadResponse.t)
| DJson (j : Json).

(** An asynchronous accessor: the requests it awaits, in order, each
    continued with the response's data. *)
Inductive Call (A : Type) : Type :=
| Ret (a : A)
| Await (r : Request) (k : Data -> Call A).

Arguments Ret {A} a.
Arguments Await {A} r k.

Fixpoint bind {A B : Type} (c : Call A) (f : A -> Call B) : Call B :=
  match c with
  | Ret a => f a
  | Await r k => Await r (fun d => bind (k d) f)
  end.

(** Running an accessor against a server: its result and the requests that
    went out, first one first. *)
Fixpoint run {A : Type} (server : Request -> Data) (c : Call A) : A * list Request :=
  match c with
  | Ret a => (a, [])
  | Await r k =>
      let (a, log) := run server (k (server r)) in (a, r :: log)
  end.

Definition result {A : Type} (server : Request -> Data) (c : Call A) : A :=
  fst (run server c).

Definition requests {A : Type} (server : Request -> Data) (c : Call A) : list Request :=
  snd (run server c).

(** [axios.create({ baseURL: '/api', ... })]: every path below is relative to
    the base URL. *)
Definition baseURL : string := "/api".

(** A template literal. *)
Definition tpl (parts : list string) : string := String.concat "" parts.

Definition api_get (path : string) (ps : list (string * Z)) : Call Data :=
  Await (mkRequest GET (tpl [baseURL; path]) ps NoBody) (fun d => Ret d).

Definition api_post (path : string) (b : Body) : Call Data :=
  Await (mkRequest POST (tpl [baseURL; path]) [] b) (fun d => Ret d).

Definition api_delete (path : string) : Call Data :=
  Await (mkRequest DELETE (tpl [baseURL; path]) [] NoBody) (fun d => Ret d).

(** A parameter with a default value: the default applies when the caller
    leaves the argument out. *)
Definition default_arg (d : Z) (a : option Z) : Z :=
  match a with
  | Some v => v
  | None => d
  end.

Module imagesApi.

Definition list (skip limit : option Z) : Call Data :=
  let skip := default_arg 0 skip in
  let limit := default_arg 100 limit in
  bind (api_get "/images" [("skip", skip); ("limit", limit)]) (fun data => Ret data).

Definition get (id : string) : Call Data :=
  bind (api_get (tpl ["/images/"; id]) []) (fun data => Ret data).

Definition getFaces (id : string) : Call Data :=
  bind (api_get (tpl ["/images/"; id; "/faces"]) []) (fun data => Ret data).

Definition getImageUrl (id : string) : string :=
  tpl ["/api/images/"; id; "/file"].

Definition retryProcessing (id : string) : Call Data :=
  bind (api_post (tpl ["/images/"; id; "/retry"]) NoBody) (fun data => Ret data).

Definition getDetectionDebug (id : string) : Call Data :=
  bind (api_get (tpl ["/images/"; id; "/detection-debug"]) []) (fun data => Ret data).

End imagesApi.

Module facesApi.

Definition list (skip limit : option Z) : Call Data :=
  let skip := default_arg 0 skip in
  let limit := default_arg 100 limit in
  bind (api_get "/faces" [("skip", skip); ("limit", limit)]) (fun data => Ret data).

Definition get (id : string) : Call Data :=
  bind (api_get (tpl ["/faces/"; id]) []) (fun data => Ret data).

End facesApi.

Module groupsApi.

Definition list (skip limit : option Z) : Call Data :=
  let skip := default_arg 0 skip in
  let limit := default_arg 100 limit in
  bind (api_get "/groups" [("skip", skip); ("limit", limit)]) (fun data => Ret data).

Definition get (id : string) : Call Data :=
  bind (api_get (tpl ["/groups/"; id]) []) (fun data => Ret data).

Definition getFaces (id : string) : Call Data :=
  bind (api_get (tpl ["/groups/"; id; "/faces"]) []) (fun data => Ret data).

Definition getImages (id : string) : Call Data :=
  bind (api_get (tpl ["/groups/"; id; "/images"]) []) (fun data => Ret data).

Definition merge (sourceId targetId : string) : Call unit :=
  bind (api_post (tpl ["/groups/"; sourceId; "/merge"])
                 (JsonBody [("target_group_id", targetId)]))
       (fun _ => Ret tt).

Definition delete (id : string) : Call unit :=
  bind (api_delete (tpl ["/groups/"; id])) (fun _ => Ret tt).

End groupsApi.

Module uploadApi.

Definition upload (files : list File) : Call Data :=
  let formData := map (fun file => ("files", file)) files in
  bind (api_post "/upload" (FormData formData)) (fun data => Ret data).

End uploadApi.

Module processingApi.

Definition trigger (imageId : string) : Call unit :=
  bind (api_post (tpl ["/process/"; imageId]) NoBody) (fun _ => Ret tt).

Definition getStatus : Call Data :=
  bind (api_get "/processing/status" []) (fun data => Ret data).

End processingApi.

(** The number of records in a response ([data.length] of an array). *)
Definition record_count (d : Data) : nat :=
  match d with
  | DImages l => List.length l
  | DFaces l => List.length l
  | DGroups l => List.length l
  | DUploads l => List.length l
  | DJson (JArray items) => List.length items
  | _ => 0
  end.

Definition param (name : string) (r : Request) : option Z :=
  option_map snd (find (fun p => String.eqb (fst p) name) (params r)).

(** The request of a paginated list: [GET path?skip=..&limit=..]. *)
Definition list_request (path : string) (skip limit : Z) : Request :=
  mkRequest GET path [("skip", skip); ("limit", limit)] NoBody.

(** A server that pages its lists: it answers a request that carries a
    [limit] with at most that many records. *)
Definition honours_limit (server : Request -> Data) : Prop :=
  forall (r : Request) (n : Z),
    param "limit" r = Some n -> (record_count (server r) <= Z.to_nat n)%nat.

End Api.

(* ================================================================== *)
(** ** What a view renders, and what a click does *)
(* ================================================================== *)

Module View.
Import Types Api.

(** The handlers the buttons of the image views are bound to. *)
Inductive Action : Type :=
| HistoryBack          (* window.history.back() *)
| RetryMutate          (* retryMutation.mutate() *)
| DebugMutate.         (* debugMutation.mutate() *)

Inductive Element : Type :=
| Text (content : string)
| Button (label : string) (onClick : Action) (disabled : bool).

(** What a component returns: the loading spinner, a one-line message, or
    the page.  Of a page the texts that depend on the data and the buttons
    are kept, in document order; images, styling and the fixed paragraphs of
    a notice (kept by its title) are left out. *)
Inductive t : Type :=
| Spinner
| Message (content : string)
| Page (elements : list Element).

Definition elements_of (v : t) : list Element :=
  match v with
  | Page es => es
  | _ => []
  end.

(** [cond && ( ... )] in JSX. *)
Definition when (cond : bool) (es : list Element) : list Element :=
  if cond then es else [].

(** [s.slice(0, 8)] *)
Definition slice8 (s : string) : string := String.substring 0 8 s.

Definition digits (n : N) : string :=
  DecimalString.NilZero.string_of_uint (N.to_uint n).

Definition two_digits (n : N) : string :=
  if (n <? 10)%N then String.append "0" (digits n) else digits n.

(** [x.toFixed(2)] on an exact number: the sign, then the nearest multiple
    of 1/100 to [|x|] (the larger one on a tie). *)
Definition toFixed2 (x : number) : string :=
  let sign := if Qlt_le_dec x 0 then "-" else "" in
  let n := Z.to_N (Qfloor (Qabs x * 100 + (1 # 2))) in
  String.append sign
    (String.append (digits (n / 100)) (String "." (two_digits (n mod 100)))).

(** [a || 'N/A'] where [a] is a string or [undefined]: the empty string is
    falsy too. *)
Definition or_else (a : option string) (fallback : string) : string :=
  match a with
  | Some s => if String.eqb s "" then fallback else s
  | None => fallback
  end.

(** [face.confidence?.toFixed(2) || 'N/A'] *)
Definition confidence_text (f : Face.t) : string :=
  or_else (option_map toFixed2 (Face.confidence f)) "N/A".

(** One line of the face list of the image detail view.  The line break
    between the confidence and the [span] of the group is not rendered, so
    the group follows the confidence without a space. *)
Definition face_line (face : Face.t) : Element :=
  Text (tpl ["Face "; slice8 (Face.id face); " - Confidence: "; confidence_text face;
             match Face.person_group_id face with
             | Some g => if String.eqb g "" then ""
                         else tpl ["(Person Group: "; slice8 g; ")"]
             | None => ""
             end]).

(** [faces && faces.length > 0] *)
Definition has_faces (faces : option (list Face.t)) : bool :=
  match faces with
  | Some (_ :: _) => true
  | _ => false
  end.

Definition faces_or_empty (faces : option (list Face.t)) : list Face.t :=
  match faces with
  | Some l => l
  | None => []
  end.

(** What the handler of an action awaits ([mutationFn] of the mutation it
    triggers). *)
Definition handler (imageId : string) (a : Action) : Call Data :=
  match a with
  | HistoryBack => Ret DVoid
  | RetryMutate => imagesApi.retryProcessing imageId
  | DebugMutate => imagesApi.getDetectionDebug imageId
  end.

(** The requests a click on an element sends through its handler (the
    mutation function of the mutation it triggers): a disabled button and a
    text run no handler.  The queries that [onSuccess] invalidates later are
    refetched by the query client and are not part of the click. *)
Definition click (server : Request -> Data) (imageId : string) (e : Element) : list Request :=
  match e with
  | Button _ a false => requests server (handler imageId a)
  | _ => []
  end.

(** The retry request of an image: [POST /api/images/{id}/retry]. *)
Definition retry_request (imageId : string) : Request :=
  mkRequest POST (tpl ["/api/images/"; imageId; "/retry"]) [] NoBody.

Definition offers_retry (e : Element) : bool :=
  match e with
  | Button _ RetryMutate _ => true
  | _ => false
  end.

(** The image is loaded and its status is failed, pending or completed. *)
Definition may_retry (image : option Image.t) : Prop :=
  exists img, image = Some img
    /\ (Image.processing_status img = failed
        \/ Image.processing_status img = pending
        \/ Image.processing_status img = completed).

End View.

(* ================================================================== *)
(** ** frontend/src/components/Images/ImageDetail.tsx *)
(* ================================================================== *)

Module ImageDetail.
Import Types Api View.

(** The status row: the badge and, for a failed or pending image, the retry
    button. *)
Definition status_row (image : Image.t) (retryPending : bool) : list Element :=
  let s := Image.processing_status image in
  [Text "Status:"; Text (literal s)]
  ++ when (status_is s "failed" || status_is s "pending")
       [Button (if retryPending then "Retrying..." else "Retry Processing")
               RetryMutate retryPending].

Definition faces_block (image : Image.t) (faces : option (list Face.t)) : list Element :=
  when (status_is (Image.processing_status image) "completed")
    (if has_faces faces
     then Text "Faces Detected:" :: map face_line (faces_or_empty faces)
     else [Text "No faces detected in this image"]).

Definition render (imageLoading facesLoading : bool)
    (image : option Image.t) (faces : option (list Face.t))
    (retryPending : bool) : View.t :=
  if imageLoading || facesLoading then Spinner
  else match image with
       | None => Message "Image not found"
       | Some image =>
           Page ([Button "← Back" HistoryBack false; Text (Image.filename image)]
                 ++ status_row image retryPending
                 ++ faces_block image faces)
       end.

End ImageDetail.

(* ================================================================== *)
(** ** The image detail view with polling, redo and the detection test
       (the later revision of ImageDetail, src/unnamed/part_002) *)
(* ================================================================== *)

Module ImageDetailPolling.
Import Types Api View.

(** What [refetchInterval] returns: a period in milliseconds, or [false]. *)
Inductive Interval : Type :=
| Every (ms : Z)
| Never.

(** [data?.processing_status === lit] on the query's data. *)
Definition data_status_is (data : option Image.t) (lit : string) : bool :=
  match data with
  | Some image => status_is (Image.processing_status image) lit
  | None => false
  end.

Definition refetchInterval (data : option Image.t) : Interval :=
  if data_status_is data "processing" || data_status_is data "pending"
  then Every 2000
  else Never.

Definition status_row (image : Image.t) (retryPending debugPending : bool) : list Element :=
  let s := Image.processing_status image in
  [Text "Status:"; Text (literal s)]
  ++ when (status_is s "failed" || status_is s "pending")
       [Button (if retryPending then "Retrying..." else "Retry Processing")
               RetryMutate retryPending]
  ++ when (status_is s "completed")
       [Button (if retryPending then "Redetecting..." else "Redo Face Detection")
               RetryMutate retryPending;
        Button (if debugPending then "Testing..." else "🔍 Test Detection")
               DebugMutate debugPending].

Definition faces_block (image : Image.t) (faces : option (list Face.t))
    (retryPending : bool) : list Element :=
  when (status_is (Image.processing_status image) "completed")
    ((if has_faces faces
      then Text "Faces Detected:" :: map face_line (faces_or_empty faces)
      else [Text "No faces detected in this image";
            Button (if retryPending then "Redetecting Faces..." else "🔄 Redo Face Detection")
                   RetryMutate retryPending])
     ++ when (has_faces faces)
          [Button (if retryPending then "Redetecting..." else "🔄 Redo Face Detection")
                  RetryMutate retryPending]).

Definition render (imageLoading facesLoading : bool)
    (image : option Image.t) (faces : option (list Face.t))
    (retryPending debugPending : bool) : View.t :=
  if imageLoading || facesLoading then Spinner
  else match image with
       | None => Message "Image not found"
       | Some image =>
           Page ([Button "← Back" HistoryBack false; Text (Image.filename image)]
                 ++ status_row image retryPending debugPending
                 ++ faces_block image faces retryPending)
       end.

End ImageDetailPolling.

(* ================================================================== *)
(** ** frontend/src/components/Images/ImageGrid.tsx and
       frontend/src/components/People/PeopleGrid.tsx *)
(* ================================================================== *)

Module ImageGrid.
Import Types Api.

(** [queryFn: () => imagesApi.list(0, 100)] *)
Definition queryFn : Call Data := imagesApi.list (Some 0%Z) (Some 100%Z).

(** The cards of the grid: one per record of the fetched data. *)
Definition cards (data : Data) : nat := record_count data.

End ImageGrid.

Module PeopleGrid.
Import Types Api.

(** [queryFn: () => groupsApi.list(0, 100)] *)
Definition queryFn : Call Data := groupsApi.list (Some 0%Z) (Some 100%Z).

Definition cards (data : Data) : nat := record_count data.

End PeopleGrid.

(* ================================================================== *)
(** ** frontend/src/components/Upload/ImageUpload.tsx *)
(* ================================================================== *)

Module ImageUpload.
Import Types.

(** [Array.prototype.filter] with the two-argument callback
    [(element, index) => ...]: the index counts the elements of the array
    scanned, from 0. *)
Fixpoint filter_from {A : Type} (keep : A -> Z -> bool) (i : Z) (l : list A) : list A :=
  match l with
  | [] => []
  | x :: rest =>
      if keep x i then x :: filter_from keep (i + 1) rest
      else filter_from keep (i + 1) rest
  end.

Definition array_filter {A : Type} (keep : A -> Z -> bool) (l : list A) : list A :=
  filter_from keep 0 l.

(** The component's state: [files] and [dragActive]. *)
Record State : Type := mkState {
  files : list File;
  dragActive : bool
}.

Definition initial : State := mkState [] false.

(** [setFiles(updater)] *)
Definition setFiles (updater : list File -> list File) (st : State) : State :=
  mkState (updater (files st)) (dragActive st).

(** [setFiles((prev) => prev.filter((_, i) => i !== index))] *)
Definition removeFile (index : Z) (st : State) : State :=
  setFiles (fun prev => array_filter (fun _ i => negb (i =? index)%Z) prev) st.

(** [setFiles((prev) => [...prev, ...fileArray])], when the selection is not
    empty. *)
Definition handleFileInput (selected : list File) (st : State) : State :=
  match selected with
  | [] => st
  | _ :: _ => setFiles (fun prev => prev ++ selected) st
  end.

Definition handleDrop (dropped : list File) (st : State) : State :=
  let st := mkState (files st) false in
  match dropped with
  | [] => st
  | _ :: _ => setFiles (fun prev => prev ++ dropped) st
  end.

End ImageUpload.

(* ================================================================== *)
(** ** The clustering core (back end)

    The back end is not part of the sources at hand: the front end above is
    its only caller.  Everything in this module is written from the design
    document (sections 3 to 7).  Identifiers are natural numbers handed out
    by two counters, timestamps are natural numbers supplied by the caller,
    and reals are exact rationals. *)
(* ================================================================== *)

Module Core.

Local Open Scope nat_scope.

Definition Embedding := list Q.

Record BoundingBox : Type := mkBox {
  box_x : Q;
  box_y : Q;
  box_width : Q;
  box_height : Q
}.

(** Modelled from the spec: one element of the detector's output,
    [{bbox, confidence, embedding}] (section 6); the detector is external. *)
Record Detection : Type := mkDetection {
  det_bbox : BoundingBox;
  det_confidence : Q;
  det_embedding : Embedding
}.

(** Modelled from the spec: the Face row of section 3 (with [detected_at],
    which section 4.3 orders by). *)
Record Face : Type := mkFace {
  face_id : nat;
  image_id : nat;
  embedding : Embedding;
  bounding_box : BoundingBox;
  confidence : Q;
  detected_at : nat;
  person_group_id : option nat
}.

(** Modelled from the spec: the PersonGroup row of section 3.  The
    representative is kept optional, as the interface of [types/index.ts]
    declares the field ([string | null]). *)
Record PersonGroup : Type := mkGroup {
  group_id : nat;
  name : option string;
  representative_face_id : option nat;
  created_at : nat;
  updated_at : nat
}.

(** Modelled from the spec: the part of an Image the core reads and writes
    (section 3). *)
Record Image : Type := mkImage {
  img_id : nat;
  processing_status : Types.Status;
  processed_at : option nat
}.

(** Modelled from the spec: the Embedding Store (section 2), the system of
    record of Face and PersonGroup rows; groups are kept in creation
    order. *)
Record Store : Type := mkStore {
  faces : list Face;
  groups : list PersonGroup;
  next_face_id : nat;
  next_group_id : nat
}.

Definition empty : Store := mkStore [] [] 0 0.

(** Modelled from the spec: the error taxonomy of section 7. *)
Inductive Error : Type :=
| DetectionError
| EmbeddingDimensionError
| ConcurrentProcessingError
| GroupNotFoundError.

Inductive Result (A : Type) : Type :=
| Ok (a : A)
| Err (e : Error).

Arguments Ok {A} a.
Arguments Err {A} e.

(** Modelled from the spec: what [delete_group] does with the faces of the
    group it removes, "orphans/deletes its faces per policy" (section 6). *)
Inductive FacePolicy : Type :=
| OrphanFaces
| DeleteFaces.

(** Modelled from the spec: the configuration surface (section 6) and the
    collaborators handed to the engine.  [cosine] is the cosine similarity of
    two embeddings, a real computation that is taken as given. *)
Record Env : Type := mkEnv {
  cosine : Embedding -> Embedding -> Q;
  SIMILARITY_THRESHOLD : Q;
  D : nat;
  delete_policy : FacePolicy
}.

(** The default threshold, 0.6. *)
Definition DEFAULT_SIMILARITY_THRESHOLD : Q := (6 # 10)%Q.

Definition find_face (st : Store) (fid : nat) : option Face :=
  find (fun f => face_id f =? fid) (faces st).

Definition find_group (st : Store) (gid : nat) : option PersonGroup :=
  find (fun g => group_id g =? gid) (groups st).

Definition group_exists (st : Store) (gid : nat) : bool :=
  existsb (fun g => group_id g =? gid) (groups st).

(** [person_group_id = gid] *)
Definition in_group (gid : nat) (f : Face) : bool :=
  match person_group_id f with
  | Some g => g =? gid
  | None => false
  end.

(** The member Faces of a group. *)
Definition members (st : Store) (gid : nat) : list Face :=
  filter (in_group gid) (faces st).

(** *** Similarity Index (section 4.1) *)

(** Modelled from the spec: one entry per group, the similarity of the query
    to the embedding of the group's current representative. *)
Definition entry (env : Env) (st : Store) (e : Embedding) (g : PersonGroup)
  : list (nat * Q) :=
  match representative_face_id g with
  | Some fid =>
      match find_face st fid with
      | Some r => [(group_id g, cosine env e (embedding r))]
      | None => []
      end
  | None => []
  end.

Definition entries (env : Env) (st : Store) (e : Embedding) : list (nat * Q) :=
  flat_map (entry env st e) (groups st).

(** Insertion in a list ordered by descending similarity; the inserted entry
    goes before the entries it ties with. *)
Fixpoint insert_desc (x : nat * Q) (l : list (nat * Q)) : list (nat * Q) :=
  match l with
  | [] => [x]
  | y :: rest =>
      if Qle_bool (snd y) (snd x) then x :: y :: rest
      else y :: insert_desc x rest
  end.

(** Stable sort by descending similarity: among ties the group created
    earlier comes first. *)
Definition sort_desc (l : list (nat * Q)) : list (nat * Q) :=
  fold_right insert_desc [] l.

(** Modelled from the spec: [nearest(embedding, k)], the [k] best groups,
    highest similarity first, ties broken by creation order. *)
Definition nearest (env : Env) (st : Store) (e : Embedding) (k : nat)
  : list (nat * Q) :=
  firstn k (sort_desc (entries env st e)).

(** The single best-matching existing group, if there is any group. *)
Definition best_match (env : Env) (st : Store) (e : Embedding) : option (nat * Q) :=
  hd_error (nearest env st e 1).

(** *** Grouping Engine (section 4.2) *)

Definition new_face (st : Store) (image now : nat) (d : Detection) (gid : nat) : Face :=
  mkFace (next_face_id st) image (det_embedding d) (det_bbox d)
         (det_confidence d) now (Some gid).

(** Step 2: the Face joins the best-matching group. *)
Definition join_group (st : Store) (image now : nat) (d : Detection) (gid : nat)
  : Store * Face :=
  let f := new_face st image now d gid in
  (mkStore (faces st ++ [f]) (groups st) (S (next_face_id st)) (next_group_id st), f).

(** Steps 3 and 4: a new group whose initial representative is the Face,
    persisted together with it. *)
Definition create_group (st : Store) (image now : nat) (d : Detection)
  : Store * Face :=
  let gid := next_group_id st in
  let f := new_face st image now d gid in
  let g := mkGroup gid None (Some (face_id f)) now now in
  (mkStore (faces st ++ [f]) (groups st ++ [g])
           (S (next_face_id st)) (S (next_group_id st)), f).

(** Modelled from the spec: [assign(face_detection) -> Face].  The
    dimensionality of the embedding is validated on the insert. *)
Definition assign (env : Env) (st : Store) (image now : nat) (d : Detection)
  : Result (Store * Face) :=
  if List.length (det_embedding d) =? D env then
    match best_match env st (det_embedding d) with
    | Some (gid, s) =>
        if Qle_bool (SIMILARITY_THRESHOLD env) s
        then Ok (join_group st image now d gid)
        else Ok (create_group st image now d)
    | None => Ok (create_group st image now d)
    end
  else Err EmbeddingDimensionError.

(** The detections of one image, each resolved against the current state of
    the catalog, in the detector's order; the first failure fails the run. *)
Fixpoint assign_all (env : Env) (st : Store) (image now : nat) (ds : list Detection)
  : Result Store :=
  match ds with
  | [] => Ok st
  | d :: rest =>
      match assign env st image now d with
      | Ok (st', _) => assign_all env st' image now rest
      | Err e => Err e
      end
  end.

(** *** Group Maintenance (section 4.3) *)

Definition reassign (source target : nat) (f : Face) : Face :=
  if in_group source f
  then mkFace (face_id f) (image_id f) (embedding f) (bounding_box f)
              (confidence f) (detected_at f) (Some target)
  else f.

Definition remove_group (gid : nat) (gs : list PersonGroup) : list PersonGroup :=
  filter (fun g => negb (group_id g =? gid)) gs.

(** Modelled from the spec: [Merge(sourceGroupId, targetGroupId)].  Every
    Face of the source goes to the target, then the source is deleted; the
    target keeps its representative.  A source that no longer exists is a
    no-op success; a target that does not exist is a [GroupNotFoundError]
    with no mutation. *)
Definition merge (st : Store) (source target : nat) : Result Store :=
  if group_exists st source then
    if group_exists st target then
      Ok (mkStore (map (reassign source target) (faces st))
                  (remove_group source (groups st))
                  (next_face_id st) (next_group_id st))
    else Err GroupNotFoundError
  else Ok st.

Definition orphan (gid : nat) (f : Face) : Face :=
  if in_group gid f
  then mkFace (face_id f) (image_id f) (embedding f) (bounding_box f)
              (confidence f) (detected_at f) None
  else f.

(** Modelled from the spec: [delete_group(id)], which removes the group and
    orphans or deletes its faces, per policy. *)
Definition delete_group (env : Env) (st : Store) (gid : nat) : Result Store :=
  if group_exists st gid then
    Ok (mkStore
          (match delete_policy env with
           | OrphanFaces => map (orphan gid) (faces st)
           | DeleteFaces => filter (fun f => negb (in_group gid f)) (faces st)
           end)
          (remove_group gid (groups st))
          (next_face_id st) (next_group_id st))
  else Err GroupNotFoundError.

(** [f] is preferred to [g] as a representative: higher confidence, and on
    equal confidence the earlier [detected_at]. *)
Definition preferred (f g : Face) : bool :=
  negb (Qle_bool (confidence f) (confidence g))
  || (Qeq_bool (confidence f) (confidence g) && (detected_at f <? detected_at g)).

Definition pick (best : option Face) (f : Face) : option Face :=
  match best with
  | None => Some f
  | Some b => if preferred f b then Some f else Some b
  end.

(** Modelled from the spec: the new representative, chosen from the
    remaining members by highest confidence, ties by earliest
    [detected_at]. *)
Definition choose_representative (remaining_members : list Face) : option Face :=
  fold_left pick remaining_members None.

Definition representative_deleted (deleted : list Face) (g : PersonGroup) : bool :=
  match representative_face_id g with
  | Some r => existsb (fun f => face_id f =? r) deleted
  | None => false
  end.

(** Modelled from the spec: representative reassignment.  A group whose
    representative was deleted gets a new one from its remaining members, and
    is itself deleted when none remains. *)
Definition maintain (deleted remaining : list Face) (now : nat) (g : PersonGroup)
  : list PersonGroup :=
  if representative_deleted deleted g then
    match choose_representative (filter (in_group (group_id g)) remaining) with
    | Some f => [mkGroup (group_id g) (name g) (Some (face_id f)) (created_at g) now]
    | None => []
    end
  else [g].

(** *** Reprocessing Coordinator (section 4.4) and the Processing State
        Machine (section 4.5) *)

(** Step 1 of [reprocess]: every Face of the image is deleted, and the
    groups they leave are maintained. *)
Definition retract (st : Store) (image now : nat) : Store :=
  let deleted := filter (fun f => image_id f =? image) (faces st) in
  let remaining := filter (fun f => negb (image_id f =? image)) (faces st) in
  mkStore remaining
          (flat_map (maintain deleted remaining now) (groups st))
          (next_face_id st) (next_group_id st).

(** What a run leaves behind: the store, the image with its new status, and
    the error reported to the caller, if any. *)
Record Outcome : Type := mkOutcome {
  store : Store;
  image : Image;
  error : option Error
}.

Definition with_status (i : Image) (s : Types.Status) (at_ : option nat) : Image :=
  mkImage (img_id i) s at_.

(** One attempt, from [processing] to [completed] or [failed].  The run is
    all or nothing: a failure leaves the store as it was before the
    attempt. *)
Definition attempt (env : Env) (before work : Store) (i : Image) (now : nat)
    (detected : Result (list Detection)) : Outcome :=
  match detected with
  | Err e => mkOutcome before (with_status i Types.failed (processed_at i)) (Some e)
  | Ok ds =>
      match assign_all env work (img_id i) now ds with
      | Ok st' => mkOutcome st' (with_status i Types.completed (Some now)) None
      | Err e => mkOutcome before (with_status i Types.failed (processed_at i)) (Some e)
      end
  end.

Definition is_processing (i : Image) : bool :=
  match processing_status i with
  | Types.processing => true
  | _ => false
  end.

(** Modelled from the spec: [process(image_id)], the first processing of an
    image, given what the detector answers for it. *)
Definition process (env : Env) (st : Store) (i : Image) (now : nat)
    (detected : Result (list Detection)) : Outcome :=
  if is_processing i then mkOutcome st i (Some ConcurrentProcessingError)
  else attempt env st st i now detected.

(** Modelled from the spec: [reprocess(image_id)], retract and redo.  A
    request against an image that is already [processing] is rejected. *)
Definition reprocess (env : Env) (st : Store) (i : Image) (now : nat)
    (detected : Result (list Detection)) : Outcome :=
  if is_processing i then mkOutcome st i (Some ConcurrentProcessingError)
  else attempt env st (retract st (img_id i) now) i now detected.

(** *** Sequences of operations *)

Inductive Op : Type :=
| OpAssign (image now : nat) (d : Detection)
| OpProcess (i : Image) (now : nat) (detected : Result (list Detection))
| OpReprocess (i : Image) (now : nat) (detected : Result (list Detection))
| OpMerge (source target : nat)
| OpDelete (gid : nat).

Definition or_unchanged (st : Store) (r : Result Store) : Store :=
  match r with
  | Ok st' => st'
  | Err _ => st
  end.

(** The store once an operation has completed; a rejected operation leaves
    it as it was. *)
Definition step (env : Env) (st : Store) (op : Op) : Store :=
  match op with
  | OpAssign image now d =>
      match assign env st image now d with
      | Ok (st', _) => st'
      | Err _ => st
      end
  | OpProcess i now detected => store (process env st i now detected)
  | OpReprocess i now detected => store (reprocess env st i now detected)
  | OpMerge source target => or_unchanged st (merge st source target)
  | OpDelete gid => or_unchanged st (delete_group env st gid)
  end.

(** The store after a sequence of operations, from the empty catalog. *)
Definition run_ops (env : Env) (ops : list Op) : Store :=
  fold_left (step env) ops empty.

(** A group has this many member Faces. *)
Definition member_count (st : Store) (g : PersonGroup) : nat :=
  List.length (members st (group_id g)).

(** The representative of a group is one of its own members. *)
Definition representative_ok (st : Store) (g : PersonGroup) : Prop :=
  exists fid f,
    representative_face_id g = Some fid
    /\ find_face st fid = Some f
    /\ person_group_id f = Some (group_id g).

(** *** Vocabulary of the statements *)

(** [(gid, s)] is the entry of an existing group: [s] is the similarity of
    the query [e] to the embedding of the representative of group [gid]. *)
Definition similarity_to_group (env : Env) (st : Store) (e : Embedding)
    (gid : nat) (s : Q) : Prop :=
  exists g fid r,
    In g (groups st) /\ group_id g = gid
    /\ representative_face_id g = Some fid
    /\ find_face st fid = Some r
    /\ s = cosine env e (embedding r).

(** No group representative is more similar to the query than [s]. *)
Definition best_similarity (env : Env) (st : Store) (e : Embedding) (s : Q) : Prop :=
  forall gid' s', similarity_to_group env st e gid' s' -> (s' <= s)%Q.

(** The Face went to the existing group [gid], and no group was created. *)
Definition joined (st st' : Store) (f : Face) (gid : nat) : Prop :=
  person_group_id f = Some gid /\ groups st' = groups st.

(** Exactly one group was created, with the Face as its representative and
    its only assignment. *)
Definition created (st st' : Store) (f : Face) : Prop :=
  exists g,
    groups st' = groups st ++ [g]
    /\ group_id g = next_group_id st
    /\ representative_face_id g = Some (face_id f)
    /\ person_group_id f = Some (group_id g).

(** The Face row written for a detection of an image. *)
Definition face_of (f : Face) (image : nat) (d : Detection) : Prop :=
  image_id f = image
  /\ embedding f = det_embedding d
  /\ bounding_box f = det_bbox d
  /\ confidence f = det_confidence d.

(** The consistency of a store: identifiers are unique and below the
    counters, and every group is represented by one of its members. *)
Record well_formed (st : Store) : Prop := mk_well_formed {
  wf_face_fresh : forall f, In f (faces st) -> face_id f < next_face_id st;
  wf_face_unique : NoDup (map face_id (faces st));
  wf_group_fresh : forall g, In g (groups st) -> group_id g < next_group_id st;
  wf_group_unique : NoDup (map group_id (groups st));
  wf_representative :
    forall g, In g (groups st) ->
      exists f, In f (faces st)
        /\ representative_face_id g = Some (face_id f)
        /\ person_group_id f = Some (group_id g)
}.

End Core.

(* ================================================================== *)
(** ** Concrete inputs used by the examples below *)
(* ================================================================== *)

Module Samples.
Import Types Api.

Definition box : BoundingBox.t := BoundingBox.mk 10 20 64 64.

Definition image (s : Status) : Image.t :=
  Image.mk "3f2a9c1e-img" "beach.jpg" "uploads/beach.jpg" None (Some "image/jpeg")
           None None None "2025-01-01T10:00:00" None s.

(** A face whose detector confidence did not come through. *)
Definition face_without_confidence : Face.t :=
  Face.mk "77aa01bc-face" "3f2a9c1e-img" box None "2025-01-01T10:00:05" (Some "c0ffee00-group").

Definition face_with_confidence : Face.t :=
  Face.mk "77aa01bd-face" "3f2a9c1e-img" box (Some (987 # 1000)) "2025-01-01T10:00:05" None.

Definition catalogue : list Image.t := repeat (image completed) 150.

(** A back end that pages its image list with [skip] and [limit]. *)
Definition paging_server (r : Request) : Data :=
  match param "limit" r, param "skip" r with
  | Some l, Some s => DImages (firstn (Z.to_nat l) (skipn (Z.to_nat s) catalogue))
  | _, _ => DVoid
  end.

(** A back end that ignores [skip] and [limit] and answers with its whole
    image list. *)
Definition whole_list_server (r : Request) : Data := DImages catalogue.



Definition picked : list File :=
  [mkFile "a.jpg" [1%nat]; mkFile "b.png" [2%nat]; mkFile "c.webp" [3%nat]].

(** The catalog of the design document's scenario: embeddings are unit
    vectors, so that the cosine similarity is the dot product. *)
Fixpoint dot (a b : Core.Embedding) : Q :=
  match a, b with
  | x :: a', y :: b' => x * y + dot a' b'
  | _, _ => 0
  end.

Definition env : Core.Env :=
  Core.mkEnv dot Core.DEFAULT_SIMILARITY_THRESHOLD 2 Core.OrphanFaces.

Definition core_box : Core.BoundingBox := Core.mkBox 10 20 64 64.

Definition v1 : Core.Embedding := [1; 0].
Definition v2 : Core.Embedding := [4 # 5; 3 # 5].
Definition v3 : Core.Embedding := [7 # 25; 24 # 25].

Definition detection (confidence : Q) (v : Core.Embedding) : Core.Detection :=
  Core.mkDetection core_box confidence v.

Definition fresh_image (k : nat) : Core.Image := Core.mkImage k pending None.

(** Image 1 yields [v1], image 2 yields [v2] (similarity 0.8 to [v1]), image
    3 yields [v3] (similarity 0.28 to [v1]). *)
Definition three_images : list Core.Op :=
  [ Core.OpProcess (fresh_image 1) 10 (Core.Ok [detection (9 # 10) v1]);
    Core.OpProcess (fresh_image 2) 11 (Core.Ok [detection (8 # 10) v2]);
    Core.OpProcess (fresh_image 3) 12 (Core.Ok [detection (7 # 10) v3]) ].

(** The catalog after image 1: one face, representing one group. *)
Definition first_face : Core.Face :=
  Core.mkFace 0 1 v1 core_box (9 # 10) 10 (Some 0%nat).

Definition first_group : Core.PersonGroup :=
  Core.mkGroup 0 None (Some 0%nat) 10 10.

Definition after_first : Core.Store :=
  Core.mkStore [first_face] [first_group] 1 1.

(** Then image 1 is redone and yields no detection. *)
Definition redo_first : list Core.Op :=
  three_images ++ [Core.OpReprocess (Core.mkImage 1 completed (Some 10%nat)) 20 (Core.Ok [])].

(** The first group once image 1 has been redone: the face of image 2 now
    represents it. *)
Definition first_group_redone : Core.PersonGroup :=
  Core.mkGroup 0 None (Some 1%nat) 10 20.

End Samples.

(* ================================================================== *)
(** ** frontend/src/components/Upload/ImageUpload.tsx: the handlers and
       the list of selected files *)
(* ================================================================== *)

Module UploadView.
Import Types Api View ImageUpload.

(** [handleDrag]: the type of the drag event decides [dragActive]. *)
Definition handleDrag (type : string) (st : State) : State :=
  if String.eqb type "dragenter" || String.eqb type "dragover"
  then mkState (files st) true
  else if String.eqb type "dragleave"
       then mkState (files st) false
       else st.

(** [handleUpload]: [if (files.length > 0) uploadMutation.mutate(files)],
    the mutation function being [uploadApi.upload]. *)
Definition handleUpload (st : State) : Call Data :=
  match files st with
  | [] => Ret DVoid
  | _ :: _ => uploadApi.upload (files st)
  end.

(** [onSuccess: () => { setFiles([]); ... }] *)
Definition onSuccess (st : State) : State := setFiles (fun _ => []) st.

(** The state once the mutation has settled: [onError] only alerts. *)
Definition settle (succeeded : bool) (st : State) : State :=
  if succeeded then onSuccess st else st.

(** [Array.prototype.map] with the callback [(element, index) => ...]. *)
Fixpoint map_from {A B : Type} (f : A -> Z -> B) (i : Z) (l : list A) : list B :=
  match l with
  | [] => []
  | x :: rest => f x i :: map_from f (i + 1) rest
  end.

Definition array_map {A B : Type} (f : A -> Z -> B) (l : list A) : list B :=
  map_from f 0 l.

Inductive Handler : Type :=
| RemoveFile (index : Z)     (* () => removeFile(index) *)
| HandleUpload.              (* handleUpload *)

(** What the view shows below the drop zone. *)
Inductive Element : Type :=
| Heading (text : string)
| FileName (text : string)
| Control (label : string) (onClick : Handler) (disabled : bool)
| UploadProgress.

(** One row of the list: the name of the file and its Remove button. *)
Definition row (file : File) (index : Z) : list Element :=
  [FileName (file_name file); Control "Remove" (RemoveFile index) false].

Definition count_text (st : State) : string :=
  digits (N.of_nat (List.length (files st))).

(** The section [files.length > 0 && (...)] and the progress banner. *)
Definition render (st : State) (isPending : bool) : list Element :=
  match files st with
  | [] => []
  | _ :: _ =>
      Heading (tpl ["Selected Files ("; count_text st; ")"])
      :: List.concat (array_map row (files st))
      ++ [Control (if isPending then "Uploading..."
                   else tpl ["Upload "; count_text st; " Image(s)"])
                  HandleUpload isPending]
  end
  ++ (if isPending then [UploadProgress] else []).

(** A click on an element: the state it leaves and the requests it sends. *)
Definition click (server : Request -> Data) (e : Element) (st : State)
  : State * list Request :=
  match e with
  | Control _ (RemoveFile index) false => (removeFile index st, [])
  | Control _ HandleUpload false => (st, requests server (handleUpload st))
  | _ => (st, [])
  end.

(** The request of an upload of these files. *)
Definition upload_request (fs : list File) : Request :=
  mkRequest POST "/api/upload" [] (FormData (map (fun file => ("files", file)) fs)).

(** The files of a form, in the order they were appended. *)
Definition form_files (b : Body) : list File :=
  match b with
  | FormData entries => map snd entries
  | _ => []
  end.

(** The element is a Remove button. *)
Definition is_remove (e : Element) : bool :=
  match e with
  | Control _ (RemoveFile _) _ => true
  | _ => false
  end.

End UploadView.

(* ================================================================== *)
(** ** ImageCard (second part of
       frontend/src/components/Upload/ImageUpload.tsx) *)
(* ================================================================== *)

Module ImageCard.
Import Types Api.

Record t : Type := mk {
  to : string;
  src : string;
  alt : string;
  badge : option string
}.

(** The card links to [/images/{id}], shows the file of the image, and
    carries a badge with the status when
    [image.processing_status !== 'completed']. *)
Definition render (image : Image.t) : t :=
  mk (tpl ["/images/"; Image.id image])
     (imagesApi.getImageUrl (Image.id image))
     (Image.filename image)
     (if negb (status_is (Image.processing_status image) "completed")
      then Some (literal (Image.processing_status image))
      else None).

End ImageCard.

(* ================================================================== *)
(** ** frontend/src/components/People: PersonCard (src/unnamed/part_002),
       PersonDetail.tsx and PersonPhotos.tsx *)
(* ================================================================== *)

Module PersonCard.
Import Types Api View.

(** [images?.length || 0] *)
Definition imageCount (images : option (list Image.t)) : nat :=
  match images with
  | Some l => List.length l
  | None => 0
  end.

(** [group.name || `Person ${group.id.slice(0, 8)}`] *)
Definition displayName (group : PersonGroup.t) : string :=
  or_else (PersonGroup.name group) (tpl ["Person "; slice8 (PersonGroup.id group)]).

(** The picture of the card: the first image of the group, or the
    placeholder. *)
Inductive Cover : Type :=
| CoverImage (src alt : string)
| Placeholder.

(** [images && images.length > 0 ? <img src={getImageUrl(images[0].id)} .../> : ...] *)
Definition cover (group : PersonGroup.t) (images : option (list Image.t)) : Cover :=
  match images with
  | Some (first :: _) =>
      CoverImage (imagesApi.getImageUrl (Image.id first)) (displayName group)
  | _ => Placeholder
  end.

(** [{imageCount} {imageCount === 1 ? 'photo' : 'photos'}] *)
Definition subtitle (images : option (list Image.t)) : string :=
  tpl [digits (N.of_nat (imageCount images)); " ";
       if Nat.eqb (imageCount images) 1 then "photo" else "photos"].

Record t : Type := mk {
  to : string;
  picture : Cover;
  title : string;
  photos : string
}.

Definition render (group : PersonGroup.t) (images : option (list Image.t)) : t :=
  mk (tpl ["/people/"; PersonGroup.id group])
     (cover group images)
     (displayName group)
     (subtitle images).

End PersonCard.

Module PersonPhotos.
Import Types Api View.

(** One link of the gallery: where it leads and the picture it shows. *)
Record Thumbnail : Type := mkThumbnail {
  to : string;
  src : string;
  alt : string
}.

Definition thumbnail (image : Image.t) : Thumbnail :=
  mkThumbnail (tpl ["/images/"; Image.id image])
              (imagesApi.getImageUrl (Image.id image))
              (Image.filename image).

Inductive t : Type :=
| NoPhotos (message : string)
| Gallery (heading : string) (links : list Thumbnail).

(** [images.length === 0] shows the message; otherwise the heading
    [{images.length} {images.length === 1 ? 'Photo' : 'Photos'}] and one link
    per image. *)
Definition render (images : list Image.t) : t :=
  match images with
  | [] => NoPhotos "No photos found for this person."
  | _ :: _ =>
      Gallery (tpl [digits (N.of_nat (List.length images)); " ";
                    if Nat.eqb (List.length images) 1 then "Photo" else "Photos"])
              (map thumbnail images)
  end.

Definition links_of (p : t) : list Thumbnail :=
  match p with
  | Gallery _ links => links
  | NoPhotos _ => []
  end.

End PersonPhotos.

Module PersonDetail.
Import Types Api View.

(** [group.name || `Person ${group.id.slice(0, 8)}`] *)
Definition displayName (group : PersonGroup.t) : string :=
  or_else (PersonGroup.name group) (tpl ["Person "; slice8 (PersonGroup.id group)]).

Inductive t : Type :=
| Loading
| NotFound (message : string)
| Person (heading : string) (photos : PersonPhotos.t).

(** [images || []] *)
Definition images_or_empty (images : option (list Image.t)) : list Image.t :=
  match images with
  | Some l => l
  | None => []
  end.

Definition render (groupLoading imagesLoading : bool)
    (group : option PersonGroup.t) (images : option (list Image.t)) : t :=
  if groupLoading || imagesLoading then Loading
  else match group with
       | None => NotFound "Person group not found"
       | Some group =>
           Person (displayName group) (PersonPhotos.render (images_or_empty images))
       end.

End PersonDetail.

(* ================================================================== *)
(** * Theorems *)
(* ================================================================== *)

(** ** The data model of types/index.ts *)

Section DataModel.
Import Types Api.

Lemma status_is_literal (s : Status) (lit : string) :
  status_is s lit = true <-> literal s = lit.
Proof. unfold status_is. apply String.eqb_eq. Qed.

Lemma literal_injective (s s' : Status) : literal s = literal s' -> s = s'.
Proof. destruct s, s'; simpl; intro H; try reflexivity; discriminate H. Qed.

(** A conforming object has every declared field, with a conforming
    value. *)
Lemma conforms_field (fields : list (string * TsType)) (j : Json)
    (name : string) (t : TsType) :
  conforms (TObject fields) j = true -> In (name, t) fields ->
  exists v, field name j = Some v /\ conforms t v = true.
Proof.
  destruct j as [| b | n | s | items | properties]; try discriminate.
  induction fields as [| [name' t'] fields IH]; simpl; intros H Hin; [contradiction |].
  apply andb_prop in H. destruct H as [Hhere Hrest].
  destruct Hin as [Heq | Hin].
  - injection Heq as -> ->.
    destruct (property name properties) as [v |]; [| discriminate Hhere].
    exists v. split; [reflexivity | exact Hhere].
  - apply IH; assumption.
Qed.

Lemma conforms_nullable_string (v : Json) :
  conforms (TUnion [TString; TNull]) v = true ->
  v = JNull \/ exists s, v = JString s.
Proof. destruct v; simpl; intro H; try discriminate H; eauto. Qed.

Lemma conforms_nullable_number (v : Json) :
  conforms (TUnion [TNumber; TNull]) v = true ->
  v = JNull \/ exists n, v = JNumber n.
Proof. destruct v; simpl; intro H; try discriminate H; eauto. Qed.




End DataModel.


(** ** The face line of the image detail view *)

Section FaceLine.
Import Types Api View.

Lemma digits_head (n : N) : exists c rest,
  digits n = String c rest /\ c <> "N"%char.
Proof.
  unfold digits, DecimalString.NilZero.string_of_uint.
  destruct (N.to_uint n); simpl; eexists; eexists; split;
    try reflexivity; intro H; discriminate H.
Qed.

Lemma toFixed2_is_a_number (x : number) : toFixed2 x <> "" /\ toFixed2 x <> "N/A".
Proof.
  unfold toFixed2.
  set (n := Z.to_N _).
  destruct (digits_head (n / 100)) as (c & rest & Hd & Hc).
  rewrite Hd.
  destruct (Qlt_le_dec x 0); simpl; split; intro H; try discriminate H.
  injection H as H _. apply Hc. exact H.
Qed.

Lemma confidence_text_none (f : Face.t) :
  Face.confidence f = None <-> confidence_text f = "N/A".
Proof.
  unfold confidence_text. destruct (Face.confidence f) as [c |]; simpl.
  - destruct (toFixed2_is_a_number c) as [Hne Hna].
    destruct (String.eqb_spec (toFixed2 c) "") as [E | _]; [contradiction |].
    split; [discriminate | intro H; contradiction].
  - split; reflexivity.
Qed.

Lemma face_to_json_conforms (face : Face.t) :
  conforms (TObject Face.decl) (Face.to_json face) = true.
Proof. destruct face as [a b [x y w h] [c |] d [g |]]; reflexivity. Qed.

(** The declared fields of a Face whose type admits [null]. *)
Lemma face_fields_admitting_null (name : string) (t : TsType) :
  In (name, t) Face.decl ->
  (conforms t JNull = true <-> name = "confidence" \/ name = "person_group_id").
Proof.
  simpl. intros [H | [H | [H | [H | [H | [H | []]]]]]]; injection H as <- <-;
    simpl; split; intro H; auto; try discriminate H;
    destruct H as [H | H]; discriminate H.
Qed.

(** C6, the counterexample: a Face whose confidence is null conforms to the
    declared Face interface, so [confidence] is a nullable field beside
    [person_group_id]; the image detail view prints N/A for it. *)
Lemma face_confidence_may_be_null :
  conforms (TObject Face.decl) (Face.to_json Samples.face_without_confidence) = true
  /\ field "confidence" (Face.to_json Samples.face_without_confidence) = Some JNull
  /\ Face.confidence Samples.face_without_confidence = None
  /\ nullable_fields Face.decl = ["confidence"; "person_group_id"]
  /\ face_line Samples.face_without_confidence
     = Text "Face 77aa01bc - Confidence: N/A(Person Group: c0ffee00)".
Proof. repeat split. Qed.

(** C6, as amended.  The confidence of a Face record is a number or null.
    Among the declared fields of the Face data model exactly [confidence] and
    [person_group_id] admit null: in a record that conforms to the interface
    the confidence is a number or null, the group is a string or null, and no
    other declared field is null.  The records of the embedded type are such
    records, and the image detail view prints N/A exactly for a null
    confidence (and the two-decimal number otherwise). *)
Theorem face_nullable_fields :
  (forall name t, In (name, t) Face.decl ->
     (conforms t JNull = true <-> name = "confidence" \/ name = "person_group_id"))
  /\ (forall j : Json,
         conforms (TObject Face.decl) j = true ->
         (field "confidence" j = Some JNull
          \/ exists c, field "confidence" j = Some (JNumber c))
         /\ (field "person_group_id" j = Some JNull
             \/ exists g, field "person_group_id" j = Some (JString g))
         /\ (forall name, In name (map fst Face.decl) -> field name j = Some JNull ->
                          name = "confidence" \/ name = "person_group_id"))
  /\ (forall face : Face.t,
         conforms (TObject Face.decl) (Face.to_json face) = true
         /\ (Face.confidence face = None
             <-> field "confidence" (Face.to_json face) = Some JNull)
         /\ (Face.confidence face = None <-> confidence_text face = "N/A")
         /\ (forall c, Face.confidence face = Some c ->
                       confidence_text face = toFixed2 c)).
Proof.
  split; [exact face_fields_admitting_null |]. split.
  - intros j Hj. split; [| split].
    + destruct (conforms_field Face.decl j "confidence" (TUnion [TNumber; TNull]) Hj)
        as (v & Hv & Hconf); [simpl; auto 10 |].
      destruct (conforms_nullable_number v Hconf) as [-> | (c & ->)]; eauto.
    + destruct (conforms_field Face.decl j "person_group_id" (TUnion [TString; TNull]) Hj)
        as (v & Hv & Hconf); [simpl; auto 10 |].
      destruct (conforms_nullable_string v Hconf) as [-> | (g & ->)]; eauto.
    + intros name Hname Hnull.
      apply in_map_iff in Hname. destruct Hname as ([name' t] & Heq & Hin).
      simpl in Heq. subst name'.
      destruct (conforms_field Face.decl j name t Hj Hin) as (v & Hv & Hconf).
      rewrite Hnull in Hv. injection Hv as <-.
      apply (proj1 (face_fields_admitting_null name t Hin) Hconf).
  - intro face. split; [apply face_to_json_conforms |]. split; [| split].
    + destruct (Face.confidence face) eqn:Hc; unfold field, Face.to_json; simpl;
        rewrite Hc; simpl; split; intro H; try reflexivity; discriminate H.
    + apply confidence_text_none.
    + intros c Hc. unfold confidence_text. rewrite Hc. simpl.
      destruct (toFixed2_is_a_number c) as [Hne _].
      destruct (String.eqb_spec (toFixed2 c) ""); [contradiction | reflexivity].
Qed.

End FaceLine.

(** The sample face without a confidence conforms to the interface; its
    confidence is the null one. *)
Lemma face_nullable_fields_witness :
  Types.conforms (Types.TObject Types.Face.decl)
                 (Types.Face.to_json Samples.face_without_confidence) = true
  /\ (Types.field "confidence" (Types.Face.to_json Samples.face_without_confidence)
      = Some Types.JNull
      \/ exists c, Types.field "confidence"
                     (Types.Face.to_json Samples.face_without_confidence)
                   = Some (Types.JNumber c)).
Proof.
  split; [reflexivity |].
  exact (proj1 (proj1 (proj2 face_nullable_fields)
                  (Types.Face.to_json Samples.face_without_confidence) eq_refl)).
Defined.

(** ** The API client *)

Section Client.
Import Types Api.

Variable server : Request -> Data.

Lemma result_get (path : string) (ps : list (string * Z)) :
  result server (bind (api_get path ps) (fun data => Ret data))
  = server (mkRequest GET (tpl [baseURL; path]) ps NoBody).
Proof. reflexivity. Qed.

(** C7.  [groupsApi.merge(sourceId, targetId)] sends exactly one request, a
    POST to /api/groups/{sourceId}/merge whose JSON body is
    [{target_group_id: targetId}]: the merge is addressed to the source and
    carries the target.  [groupsApi.delete(id)] sends exactly one request, a
    DELETE to /api/groups/{id}. *)
Theorem groups_merge_and_delete_requests :
  forall sourceId targetId id : string,
    requests server (groupsApi.merge sourceId targetId)
    = [mkRequest POST (tpl ["/api/groups/"; sourceId; "/merge"]) []
                 (JsonBody [("target_group_id", targetId)])]
    /\ requests server (groupsApi.delete id)
       = [mkRequest DELETE (tpl ["/api/groups/"; id]) [] NoBody].
Proof. intros. split; reflexivity. Qed.

(** C9, the counterexample: against a back end that answers with its whole
    list, the image grid sends exactly skip 0 and limit 100 and still shows a
    card for each of the 150 images it receives; nothing in the grid cuts the
    answer down to the limit. *)
Lemma grid_shows_every_record_received :
  requests Samples.whole_list_server ImageGrid.queryFn = [list_request "/api/images" 0 100]
  /\ ImageGrid.cards (result Samples.whole_list_server ImageGrid.queryFn) = 150%nat.
Proof. split; reflexivity. Qed.

(** C9, as amended.  The three paginated accessors send the caller's [skip]
    and [limit] as query parameters, and 0 and 100 in the place of the one
    the caller leaves out; the image grid and the people grid request exactly
    skip 0 and limit 100 and show one card per record of the answer; so each
    grid shows at most 100 records whenever the server honours the limit it
    is sent. *)
Theorem list_accessors_paginate :
  (forall skip limit : Z,
      requests server (imagesApi.list (Some skip) (Some limit))
      = [list_request "/api/images" skip limit]
      /\ requests server (facesApi.list (Some skip) (Some limit))
         = [list_request "/api/faces" skip limit]
      /\ requests server (groupsApi.list (Some skip) (Some limit))
         = [list_request "/api/groups" skip limit])
  /\ (forall skip : Z,
         requests server (imagesApi.list (Some skip) None)
         = [list_request "/api/images" skip 100]
         /\ requests server (facesApi.list (Some skip) None)
            = [list_request "/api/faces" skip 100]
         /\ requests server (groupsApi.list (Some skip) None)
            = [list_request "/api/groups" skip 100])
  /\ (forall limit : Z,
         requests server (imagesApi.list None (Some limit))
         = [list_request "/api/images" 0 limit]
         /\ requests server (facesApi.list None (Some limit))
            = [list_request "/api/faces" 0 limit]
         /\ requests server (groupsApi.list None (Some limit))
            = [list_request "/api/groups" 0 limit])
  /\ requests server (imagesApi.list None None) = [list_request "/api/images" 0 100]
  /\ requests server (facesApi.list None None) = [list_request "/api/faces" 0 100]
  /\ requests server (groupsApi.list None None) = [list_request "/api/groups" 0 100]
  /\ requests server ImageGrid.queryFn = [list_request "/api/images" 0 100]
  /\ requests server PeopleGrid.queryFn = [list_request "/api/groups" 0 100]
  /\ ImageGrid.cards (result server ImageGrid.queryFn)
     = record_count (server (list_request "/api/images" 0 100))
  /\ PeopleGrid.cards (result server PeopleGrid.queryFn)
     = record_count (server (list_request "/api/groups" 0 100))
  /\ (honours_limit server ->
      (ImageGrid.cards (result server ImageGrid.queryFn) <= 100)%nat
      /\ (PeopleGrid.cards (result server PeopleGrid.queryFn) <= 100)%nat).
Proof.
  split; [intros; repeat split |].
  split; [intros; repeat split |].
  split; [intros; repeat split |].
  repeat (split; [reflexivity |]).
  intro Hserver. split.
  - unfold ImageGrid.cards, ImageGrid.queryFn, imagesApi.list. rewrite result_get.
    apply (Hserver (list_request "/api/images" 0 100) 100%Z (eq_refl _)).
  - unfold PeopleGrid.cards, PeopleGrid.queryFn, groupsApi.list. rewrite result_get.
    apply (Hserver (list_request "/api/groups" 0 100) 100%Z (eq_refl _)).
Qed.

End Client.

Lemma paging_server_honours_limit : Api.honours_limit Samples.paging_server.
Proof.
  intros r n Hn. unfold Samples.paging_server. rewrite Hn.
  destruct (Api.param "skip" r); simpl.
  - apply firstn_le_length.
  - apply Nat.le_0_l.
Qed.

(** The paging server holds 150 images and hands the image grid 100. *)
Lemma list_accessors_paginate_witness :
  Api.honours_limit Samples.paging_server
  /\ ImageGrid.cards (Api.result Samples.paging_server ImageGrid.queryFn) = 100%nat
  /\ (ImageGrid.cards (Api.result Samples.paging_server ImageGrid.queryFn) <= 100)%nat.
Proof.
  split; [exact paging_server_honours_limit |].
  split; [vm_compute; reflexivity |].
  exact (proj1 (proj2 (proj2 (proj2 (proj2 (proj2 (proj2 (proj2 (proj2 (proj2 (proj2
           (list_accessors_paginate Samples.paging_server))))))))))
           paging_server_honours_limit)).
Defined.

(** ** The image detail view *)

Section ImageDetailView.
Import Types Api View.

(** C8.  [refetchInterval] returns 2000 exactly when the fetched image is
    processing or pending, and [false] otherwise: when the image is completed
    or failed, and when the query holds no data. *)
Theorem refetchInterval_polls_while_unfinished :
  forall data : option Image.t,
    (ImageDetailPolling.refetchInterval data = ImageDetailPolling.Every 2000
     <-> exists image, data = Some image
           /\ (Image.processing_status image = processing
               \/ Image.processing_status image = pending))
    /\ (ImageDetailPolling.refetchInterval data = ImageDetailPolling.Never
        <-> data = None
            \/ exists image, data = Some image
                 /\ (Image.processing_status image = completed
                     \/ Image.processing_status image = failed)).
Proof.
  intros [image |]; unfold ImageDetailPolling.refetchInterval; simpl.
  - destruct (Image.processing_status image) eqn:E; simpl;
      split; split; intro H;
      try discriminate H; try reflexivity;
      try (exists image; split; [reflexivity | rewrite E; auto]);
      try (right; exists image; split; [reflexivity | rewrite E; auto]);
      try (destruct H as (i & Hi & [H | H]); congruence);
      try (destruct H as [H | (i & Hi & [H | H])]; congruence).
  - split; split; intro H; try discriminate H; auto.
    destruct H as (i & Hi & _). discriminate Hi.
Qed.

(** A click sends the retry request only from a button bound to the retry
    mutation. *)
Lemma click_retry_offers (server : Request -> Data) (imageId : string) (e : Element) :
  In (retry_request imageId) (click server imageId e) -> offers_retry e = true.
Proof.
  destruct e as [s | label a [|]]; simpl; try contradiction.
  destruct a; simpl; try reflexivity; try contradiction.
  intros [H | []]. discriminate H.
Qed.

Lemma render_offers_retry (imageLoading facesLoading : bool)
    (image : option Image.t) (faces : option (list Face.t)) (retryPending : bool) :
  existsb offers_retry
    (elements_of (ImageDetail.render imageLoading facesLoading image faces retryPending))
  = true ->
  may_retry image.
Proof.
  unfold ImageDetail.render.
  destruct (imageLoading || facesLoading); [discriminate |].
  destruct image as [img |]; [| discriminate].
  intro H. exists img. split; [reflexivity |].
  revert H. simpl. unfold ImageDetail.faces_block.
  rewrite existsb_app.
  destruct (Image.processing_status img); simpl; auto; discriminate.
Qed.

Lemma render_polling_offers_retry (imageLoading facesLoading : bool)
    (image : option Image.t) (faces : option (list Face.t))
    (retryPending debugPending : bool) :
  existsb offers_retry
    (elements_of (ImageDetailPolling.render imageLoading facesLoading image faces
                    retryPending debugPending))
  = true ->
  may_retry image.
Proof.
  unfold ImageDetailPolling.render.
  destruct (imageLoading || facesLoading); [discriminate |].
  destruct image as [img |]; [| discriminate].
  intro H. exists img. split; [reflexivity |].
  revert H. simpl. unfold ImageDetailPolling.status_row, ImageDetailPolling.faces_block.
  rewrite !existsb_app.
  destruct (Image.processing_status img); simpl; auto; discriminate.
Qed.

(** An enabled button bound to the retry mutation sends exactly the retry
    request. *)
Lemma click_retry_button (server : Request -> Data) (imageId label : string) :
  click server imageId (Button label RetryMutate false) = [retry_request imageId].
Proof. reflexivity. Qed.

(** C4.  In both revisions of the image detail view, an element that offers
    the retry or redo action, or whose click sends
    POST /api/images/{id}/retry, is rendered only for an image that is
    failed, pending or completed; while the image is processing no element
    offers the action and no click sends the request. *)
Theorem retry_never_while_processing :
  forall (server : Request -> Data) (imageId : string)
         (imageLoading facesLoading : bool)
         (image : option Image.t) (faces : option (list Face.t))
         (retryPending debugPending : bool) (e : Element),
    In e (elements_of (ImageDetail.render imageLoading facesLoading image faces
                         retryPending))
    \/ In e (elements_of (ImageDetailPolling.render imageLoading facesLoading image
                            faces retryPending debugPending)) ->
    (offers_retry e = true \/ In (retry_request imageId) (click server imageId e) ->
     may_retry image)
    /\ (forall img, image = Some img -> Image.processing_status img = processing ->
        offers_retry e = false
        /\ ~ In (retry_request imageId) (click server imageId e)).
Proof.
  intros server imageId imageLoading facesLoading image faces retryPending
         debugPending e Hin.
  assert (Hmain : offers_retry e = true -> may_retry image).
  { intro Hoff. destruct Hin as [Hin | Hin].
    - apply (render_offers_retry imageLoading facesLoading image faces retryPending).
      apply existsb_exists. exists e. split; assumption.
    - apply (render_polling_offers_retry imageLoading facesLoading image faces
               retryPending debugPending).
      apply existsb_exists. exists e. split; assumption. }
  assert (Hno : forall img, image = Some img ->
                  Image.processing_status img = processing -> offers_retry e = false).
  { intros img Himg Hst. destruct (offers_retry e) eqn:E; [| reflexivity].
    destruct (Hmain eq_refl) as (img' & Himg' & Hs).
    rewrite Himg in Himg'. injection Himg' as <-. rewrite Hst in Hs.
    destruct Hs as [Hs | [Hs | Hs]]; discriminate Hs. }
  split.
  - intros [Hoff | Hreq]; [exact (Hmain Hoff) |].
    exact (Hmain (click_retry_offers server imageId e Hreq)).
  - intros img Himg Hst. split; [exact (Hno img Himg Hst) |].
    intro Hreq. apply click_retry_offers in Hreq.
    rewrite (Hno img Himg Hst) in Hreq. discriminate Hreq.
Qed.

End ImageDetailView.

(** A failed image shows the retry button, and a click on it sends the
    request. *)
Lemma retry_never_while_processing_witness :
  In (View.Button "Retry Processing" View.RetryMutate false)
     (View.elements_of
        (ImageDetail.render false false (Some (Samples.image Types.failed)) None false))
  /\ In (View.retry_request "3f2a9c1e-img")
        (View.click Samples.paging_server "3f2a9c1e-img"
           (View.Button "Retry Processing" View.RetryMutate false))
  /\ View.may_retry (Some (Samples.image Types.failed)).
Proof.
  assert (Hin : In (View.Button "Retry Processing" View.RetryMutate false)
     (View.elements_of
        (ImageDetail.render false false (Some (Samples.image Types.failed)) None false))).
  { simpl. auto 10. }
  split; [exact Hin |].
  split; [simpl; auto |].
  exact (proj1 (retry_never_while_processing Samples.paging_server "3f2a9c1e-img"
                  false false (Some (Samples.image Types.failed)) None false false
                  (View.Button "Retry Processing" View.RetryMutate false)
                  (or_introl Hin))
               (or_introl eq_refl)).
Defined.

(** ** The upload view *)

Section Upload.
Import Types ImageUpload.
Local Open Scope Z_scope.

Variable index : Z.

Let keep : File -> Z -> bool := fun _ i => negb (i =? index).

(** Past the index, or before a list that ends short of it, the filter keeps
    everything. *)
Lemma filter_from_outside (l : list File) :
  forall i, index < i \/ i + Z.of_nat (List.length l) <= index ->
            filter_from keep i l = l.
Proof.
  induction l as [| x l IH]; intros i Hi; simpl; [reflexivity |].
  unfold keep at 1.
  destruct (Z.eqb_spec i index) as [E | _]; simpl.
  - exfalso. simpl List.length in Hi. lia.
  - f_equal. apply IH. simpl List.length in Hi. lia.
Qed.

(** Within range, the filter drops the element at the index and nothing
    else. *)
Lemma filter_from_inside (l : list File) :
  forall i, i <= index < i + Z.of_nat (List.length l) ->
            filter_from keep i l
            = firstn (Z.to_nat (index - i)) l ++ skipn (S (Z.to_nat (index - i))) l.
Proof.
  induction l as [| x l IH]; intros i Hi; simpl List.length in Hi; [lia |].
  simpl filter_from. unfold keep at 1.
  destruct (Z.eqb_spec i index) as [E | NE]; simpl negb; cbv iota.
  - subst i. replace (index - index) with 0 by lia. simpl.
    apply filter_from_outside. lia.
  - replace (Z.to_nat (index - i)) with (S (Z.to_nat (index - (i + 1)))) by lia.
    simpl. f_equal. apply IH. lia.
Qed.

(** C10.  [removeFile(i)] leaves the list with exactly the element at
    position [i] removed, the others in their order (the elements before
    [i], then the elements after it); for an index outside the range of the
    list the state is unchanged. *)
Theorem removeFile_removes_exactly_one :
  forall st : State,
    (0 <= index < Z.of_nat (List.length (files st)) ->
     files (removeFile index st)
     = firstn (Z.to_nat index) (files st) ++ skipn (S (Z.to_nat index)) (files st)
     /\ S (List.length (files (removeFile index st))) = List.length (files st))
    /\ (index < 0 \/ Z.of_nat (List.length (files st)) <= index ->
        removeFile index st = st)
    /\ dragActive (removeFile index st) = dragActive st.
Proof.
  intros [fs drag]. unfold removeFile, setFiles, array_filter. simpl.
  split; [| split; [| reflexivity]].
  - intro Hin.
    assert (E : filter_from keep 0 fs
                = firstn (Z.to_nat index) fs ++ skipn (S (Z.to_nat index)) fs).
    { rewrite (filter_from_inside fs 0) by lia.
      replace (index - 0) with index by lia. reflexivity. }
    fold keep. rewrite E. split; [reflexivity |].
    rewrite length_app, length_firstn, length_skipn. lia.
  - intro Hout. f_equal. apply filter_from_outside. lia.
Qed.

End Upload.

(** Removing position 1 of three picked files leaves the first and the
    third. *)
Lemma removeFile_removes_exactly_one_witness :
  ImageUpload.files (ImageUpload.removeFile 1 (ImageUpload.mkState Samples.picked false))
  = [Types.mkFile "a.jpg" [1%nat]; Types.mkFile "c.webp" [3%nat]]
  /\ ImageUpload.removeFile 7 (ImageUpload.mkState Samples.picked true)
     = ImageUpload.mkState Samples.picked true.
Proof.
  split.
  - exact (proj1 (proj1 (removeFile_removes_exactly_one 1
                           (ImageUpload.mkState Samples.picked false))
                        (conj (proj1 (Z.leb_le 0 1) eq_refl) (proj1 (Z.ltb_lt 1 3) eq_refl)))).
  - apply (proj1 (proj2 (removeFile_removes_exactly_one 7
                           (ImageUpload.mkState Samples.picked true)))).
    right. simpl. lia.
Defined.

(** ** The clustering core *)

Section SimilarityIndex.
Import Core.
Local Open Scope nat_scope.

Variable env : Env.
Variable st : Store.
Variable e : Embedding.

Lemma insert_desc_not_nil (x : nat * Q) (l : list (nat * Q)) : insert_desc x l <> [].
Proof. destruct l as [| y rest]; simpl; [| destruct (Qle_bool _ _)]; discriminate. Qed.

Lemma sort_desc_nil (l : list (nat * Q)) : sort_desc l = [] -> l = [].
Proof.
  destruct l as [| a l]; [reflexivity |]. simpl. intro H.
  destruct (insert_desc_not_nil _ _ H).
Qed.

(** The head of the sorted entries is an entry, and no entry beats it. *)
Lemma sort_desc_head (l : list (nat * Q)) :
  forall x, hd_error (sort_desc l) = Some x ->
            In x l /\ forall y, In y l -> (snd y <= snd x)%Q.
Proof.
  induction l as [| a l IH]; intros x Hx; [discriminate Hx |].
  simpl in Hx. destruct (sort_desc l) as [| b rest] eqn:Hs.
  - apply sort_desc_nil in Hs. subst l. simpl in Hx. injection Hx as <-.
    split; [left; reflexivity |].
    intros y [<- | []]. apply Qle_refl.
  - destruct (IH b eq_refl) as [Hb Hmax].
    simpl in Hx. destruct (Qle_bool (snd b) (snd a)) eqn:Hle; simpl in Hx;
      injection Hx as <-.
    + apply Qle_bool_iff in Hle. split; [left; reflexivity |].
      intros y [<- | Hy]; [apply Qle_refl |].
      apply Qle_trans with (snd b); [apply Hmax; exact Hy | exact Hle].
    + split; [right; exact Hb |].
      intros y [<- | Hy]; [| apply Hmax; exact Hy].
      apply Qlt_le_weak, Qnot_le_lt. intro H.
      apply Qle_bool_iff in H. rewrite H in Hle. discriminate Hle.
Qed.

(** Ties go to the earlier entry: every entry before the head of the sorted
    list is strictly less similar. *)
Lemma sort_desc_head_earliest (l : list (nat * Q)) :
  forall x, hd_error (sort_desc l) = Some x ->
            exists before after,
              l = before ++ x :: after
              /\ forall y, In y before -> (snd y < snd x)%Q.
Proof.
  induction l as [| a l IH]; intros x Hx; [discriminate Hx |].
  simpl in Hx. destruct (sort_desc l) as [| b rest] eqn:Hs.
  - simpl in Hx. injection Hx as <-.
    exists [], l. split; [reflexivity | intros y []].
  - destruct (IH b eq_refl) as (before & after & Hl & Hless).
    simpl in Hx. destruct (Qle_bool (snd b) (snd a)) eqn:Hle; simpl in Hx;
      injection Hx as <-.
    + exists [], l. split; [reflexivity | intros y []].
    + exists (a :: before), after. split; [rewrite Hl; reflexivity |].
      intros y [<- | Hy]; [| apply Hless; exact Hy].
      apply Qnot_le_lt. intro H.
      apply Qle_bool_iff in H. rewrite H in Hle. discriminate Hle.
Qed.

Lemma hd_error_firstn_1 {A : Type} (l : list A) : hd_error (firstn 1 l) = hd_error l.
Proof. destruct l; reflexivity. Qed.

Lemma best_match_Some (x : nat * Q) :
  best_match env st e = Some x ->
  In x (entries env st e) /\ forall y, In y (entries env st e) -> (snd y <= snd x)%Q.
Proof.
  unfold best_match, nearest. rewrite hd_error_firstn_1. apply sort_desc_head.
Qed.

(** The best match is the first of the entries of maximal similarity: among
    ties the group created earlier wins. *)
Lemma best_match_earliest (x : nat * Q) :
  best_match env st e = Some x ->
  exists before after,
    entries env st e = before ++ x :: after
    /\ forall y, In y before -> (snd y < snd x)%Q.
Proof.
  unfold best_match, nearest. rewrite hd_error_firstn_1. apply sort_desc_head_earliest.
Qed.

Lemma best_match_None : best_match env st e = None -> entries env st e = [].
Proof.
  unfold best_match, nearest. rewrite hd_error_firstn_1.
  destruct (sort_desc (entries env st e)) eqn:Hs; [| discriminate].
  intros _. apply sort_desc_nil. exact Hs.
Qed.

(** The entries of the index are the similarities to the representatives of
    the existing groups. *)
Lemma entries_similarity (gid : nat) (s : Q) :
  In (gid, s) (entries env st e) <-> similarity_to_group env st e gid s.
Proof.
  unfold entries, similarity_to_group. rewrite in_flat_map. split.
  - intros (g & Hg & Hin). unfold entry in Hin.
    destruct (representative_face_id g) as [fid |] eqn:Hrep; [| contradiction].
    destruct (find_face st fid) as [r |] eqn:Hr; [| contradiction].
    destruct Hin as [Heq | []]. injection Heq as <- <-.
    exists g, fid, r. auto.
  - intros (g & fid & r & Hg & <- & Hrep & Hr & ->).
    exists g. split; [exact Hg |]. unfold entry. rewrite Hrep, Hr. left. reflexivity.
Qed.

End SimilarityIndex.

Section GroupingEngine.
Import Core.
Local Open Scope nat_scope.

Variable env : Env.

Lemma new_face_of (st : Store) (image now : nat) (d : Detection) (gid : nat) :
  face_of (new_face st image now d gid) image d.
Proof. repeat split. Qed.

Lemma create_group_created (st : Store) (image now : nat) (d : Detection) :
  created st (fst (create_group st image now d)) (snd (create_group st image now d)).
Proof. simpl. eexists. repeat split. Qed.

(** C1.  The assignment rule.  A detection whose embedding has the
    configured dimensionality is always assigned: one Face row is written for
    it.  Either some existing group representative is at least
    [SIMILARITY_THRESHOLD] similar to it, or every representative is less
    similar than the threshold (as when there is no group yet).  In the first
    case the Face joins a group whose representative is the most similar of
    all, and no group is created.  In the second case exactly one new group
    is created, with this Face as its representative, and the Face is
    assigned to it.  (A detection of another dimensionality is rejected with
    [EmbeddingDimensionError].) *)
Theorem assign_rule :
  forall (st : Store) (image now : nat) (d : Detection),
    (List.length (det_embedding d) = D env ->
     exists st' f,
       assign env st image now d = Ok (st', f)
       /\ faces st' = faces st ++ [f]
       /\ face_of f image d
       /\ ((exists gid s, similarity_to_group env st (det_embedding d) gid s
                          /\ (SIMILARITY_THRESHOLD env <= s)%Q)
           \/ (forall gid s, similarity_to_group env st (det_embedding d) gid s ->
                             (s < SIMILARITY_THRESHOLD env)%Q))
       /\ ((exists gid s, similarity_to_group env st (det_embedding d) gid s
                          /\ (SIMILARITY_THRESHOLD env <= s)%Q) ->
           exists gid s,
             similarity_to_group env st (det_embedding d) gid s
             /\ best_similarity env st (det_embedding d) s
             /\ (SIMILARITY_THRESHOLD env <= s)%Q
             /\ joined st st' f gid)
       /\ ((forall gid s, similarity_to_group env st (det_embedding d) gid s ->
                          (s < SIMILARITY_THRESHOLD env)%Q) ->
           created st st' f))
    /\ (List.length (det_embedding d) <> D env ->
        assign env st image now d = Err EmbeddingDimensionError).
Proof.
  intros st image now d. unfold assign.
  destruct (Nat.eqb_spec (List.length (det_embedding d)) (D env)) as [Hdim | Hdim];
    split; intro H; try contradiction; try reflexivity.
  clear H.
  destruct (best_match env st (det_embedding d)) as [[gid s] |] eqn:Hbest.
  - destruct (best_match_Some env st _ _ Hbest) as [Hin Hmax].
    apply entries_similarity in Hin.
    assert (Hbs : best_similarity env st (det_embedding d) s).
    { intros gid' s' H'. apply entries_similarity in H'. apply (Hmax _ H'). }
    destruct (Qle_bool (SIMILARITY_THRESHOLD env) s) eqn:Hle.
    + apply Qle_bool_iff in Hle.
      eexists; eexists. split; [reflexivity |].
      split; [reflexivity |]. split; [apply new_face_of |].
      split; [left; exists gid, s; split; assumption |]. split.
      * intros _. exists gid, s. repeat split; assumption.
      * intro Hall. specialize (Hall gid s Hin).
        destruct (Qlt_not_le _ _ Hall Hle).
    + assert (Hlt : (s < SIMILARITY_THRESHOLD env)%Q).
      { apply Qnot_le_lt. intro Hc. apply Qle_bool_iff in Hc.
        rewrite Hc in Hle. discriminate Hle. }
      eexists; eexists. split; [reflexivity |].
      split; [reflexivity |]. split; [apply new_face_of |]. split.
      * right. intros gid' s' Hsim.
        apply Qle_lt_trans with s; [apply (Hbs gid' s' Hsim) | exact Hlt].
      * split; [| intros _; apply create_group_created].
        intros (gid' & s' & Hsim & Hs').
        exfalso. apply (Qlt_not_le _ _ Hlt).
        apply Qle_trans with s'; [exact Hs' | apply (Hbs gid' s' Hsim)].
  - apply best_match_None in Hbest.
    assert (Hnone : forall gid s,
               ~ similarity_to_group env st (det_embedding d) gid s).
    { intros gid s Hsim. apply entries_similarity in Hsim.
      rewrite Hbest in Hsim. destruct Hsim. }
    eexists; eexists. split; [reflexivity |].
    split; [reflexivity |]. split; [apply new_face_of |]. split.
    + right. intros gid s Hsim. destruct (Hnone gid s Hsim).
    + split; [| intros _; apply create_group_created].
      intros (gid & s & Hsim & _). destruct (Hnone gid s Hsim).
Qed.

End GroupingEngine.

(** The design document's scenario at the default threshold 0.6: after image
    1, the detection of image 2 is 0.8 similar to the representative of the
    first group, and joins that group. *)
Lemma assign_rule_witness :
  Core.SIMILARITY_THRESHOLD Samples.env = (6 # 10)
  /\ exists st' f gid s,
       Core.assign Samples.env Samples.after_first 2 11
                   (Samples.detection (8 # 10) Samples.v2) = Core.Ok (st', f)
       /\ Core.similarity_to_group Samples.env Samples.after_first Samples.v2 gid s
       /\ Core.SIMILARITY_THRESHOLD Samples.env <= s
       /\ Core.joined Samples.after_first st' f gid.
Proof.
  split; [reflexivity |].
  destruct (proj1 (assign_rule Samples.env Samples.after_first 2 11
                     (Samples.detection (8 # 10) Samples.v2)) eq_refl)
    as (st' & f & Hassign & _ & _ & _ & Hjoin & _).
  assert (Hclose : exists gid s,
             Core.similarity_to_group Samples.env Samples.after_first Samples.v2 gid s
             /\ Core.SIMILARITY_THRESHOLD Samples.env <= s).
  { exists 0%nat, (Samples.dot Samples.v2 Samples.v1). split.
    - exists Samples.first_group, 0%nat, Samples.first_face.
      repeat split; try reflexivity. left; reflexivity.
    - apply Qle_bool_iff. reflexivity. }
  destruct (Hjoin Hclose) as (gid & s & Hsim & _ & Hs & Hj).
  exists st', f, gid, s. split; [exact Hassign |]. split; [exact Hsim |].
  split; [exact Hs | exact Hj].
Defined.

Section ListFacts.

Context {A B : Type}.

(** Filtering rows keeps their keys unique. *)
Lemma NoDup_map_filter (key : A -> B) (keep : A -> bool) :
  forall rows : list A,
    NoDup (map key rows) -> NoDup (map key (filter keep rows)).
Proof.
  intro rows. induction rows as [| row rows IH]; simpl; intro Hkeys; [constructor |].
  inversion Hkeys as [| ? ? Hnew Hrest]; subst.
  destruct (keep row); simpl; [constructor |]; auto.
  intro Hin. apply Hnew.
  apply in_map_iff in Hin. destruct Hin as (other & Hother & Hkept).
  apply filter_In in Hkept. rewrite <- Hother. apply in_map. exact (proj1 Hkept).
Qed.

Lemma NoDup_snoc (l : list B) (x : B) : NoDup l -> ~ In x l -> NoDup (l ++ [x]).
Proof.
  intros Hl Hx. apply NoDup_app; [exact Hl | repeat constructor; intros [] |].
  intros a Ha [<- | []]. exact (Hx Ha).
Qed.

End ListFacts.

Section StoreInvariant.
Import Core.
Local Open Scope nat_scope.

Variable env : Env.

Lemma in_group_true (gid : nat) (f : Face) :
  in_group gid f = true <-> person_group_id f = Some gid.
Proof.
  unfold in_group. destruct (person_group_id f) as [g |]; split; intro H;
    try discriminate H.
  - apply Nat.eqb_eq in H. subst. reflexivity.
  - injection H as ->. apply Nat.eqb_refl.
Qed.

(** With unique identifiers, looking a stored face up by its identifier
    finds that face. *)
Lemma find_face_stored (st : Store) (f : Face) :
  NoDup (map face_id (faces st)) -> In f (faces st) ->
  find_face st (face_id f) = Some f.
Proof.
  unfold find_face. induction (faces st) as [| a l IH]; simpl; intros Hnd Hin;
    [contradiction |].
  inversion Hnd as [| ? ? Hnotin Hrest]; subst.
  destruct Hin as [-> | Hin].
  - rewrite Nat.eqb_refl. reflexivity.
  - destruct (Nat.eqb_spec (face_id a) (face_id f)) as [E | _].
    + exfalso. apply Hnotin. rewrite E. apply in_map. exact Hin.
    + apply IH; assumption.
Qed.

Lemma well_formed_empty : well_formed empty.
Proof. constructor; simpl; try contradiction; constructor. Qed.

Lemma fresh_face_unique (st : Store) :
  well_formed st -> NoDup (map face_id (faces st) ++ [next_face_id st]).
Proof.
  intros [Hfresh Huniq _ _ _]. apply NoDup_snoc; [exact Huniq |].
  intro Hin. apply in_map_iff in Hin. destruct Hin as (f & Hid & Hf).
  specialize (Hfresh f Hf). lia.
Qed.

Lemma well_formed_join (st : Store) (image now : nat) (d : Detection) (gid : nat) :
  well_formed st -> well_formed (fst (join_group st image now d gid)).
Proof.
  intro Hwf. pose proof (fresh_face_unique st Hwf) as Hnd.
  destruct Hwf as [Hfresh Huniq Hgfresh Hguniq Hrep].
  constructor; simpl.
  - intros f Hin. apply in_app_or in Hin. destruct Hin as [Hin | [<- | []]].
    + specialize (Hfresh f Hin). lia.
    + simpl. lia.
  - rewrite map_app. exact Hnd.
  - exact Hgfresh.
  - exact Hguniq.
  - intros g Hg. destruct (Hrep g Hg) as (f & Hf & Hr).
    exists f. split; [apply in_or_app; left; exact Hf | exact Hr].
Qed.

Lemma well_formed_create (st : Store) (image now : nat) (d : Detection) :
  well_formed st -> well_formed (fst (create_group st image now d)).
Proof.
  intro Hwf. pose proof (fresh_face_unique st Hwf) as Hnd.
  destruct Hwf as [Hfresh Huniq Hgfresh Hguniq Hrep].
  constructor; simpl.
  - intros f Hin. apply in_app_or in Hin. destruct Hin as [Hin | [<- | []]].
    + specialize (Hfresh f Hin). lia.
    + simpl. lia.
  - rewrite map_app. exact Hnd.
  - intros g Hin. apply in_app_or in Hin. destruct Hin as [Hin | [<- | []]].
    + specialize (Hgfresh g Hin). lia.
    + simpl. lia.
  - rewrite map_app. apply NoDup_snoc; [exact Hguniq |].
    intro Hin. apply in_map_iff in Hin. destruct Hin as (g & Hid & Hg).
    specialize (Hgfresh g Hg). simpl in Hid. lia.
  - intros g Hin. apply in_app_or in Hin. destruct Hin as [Hin | [<- | []]].
    + destruct (Hrep g Hin) as (f & Hf & Hr).
      exists f. split; [apply in_or_app; left; exact Hf | exact Hr].
    + eexists. split; [apply in_or_app; right; left; reflexivity |].
      split; reflexivity.
Qed.

Lemma well_formed_assign (st st' : Store) (image now : nat) (d : Detection) (f : Face) :
  well_formed st -> assign env st image now d = Ok (st', f) -> well_formed st'.
Proof.
  intros Hwf. unfold assign.
  destruct (List.length (det_embedding d) =? D env); [| discriminate].
  destruct (best_match env st (det_embedding d)) as [[gid s] |].
  - destruct (Qle_bool (SIMILARITY_THRESHOLD env) s); intro H; injection H as <- _.
    + apply (well_formed_join st image now d gid Hwf).
    + apply (well_formed_create st image now d Hwf).
  - intro H; injection H as <- _. apply (well_formed_create st image now d Hwf).
Qed.

Lemma well_formed_assign_all (image now : nat) (ds : list Detection) :
  forall st st', well_formed st -> assign_all env st image now ds = Ok st' ->
                 well_formed st'.
Proof.
  induction ds as [| d ds IH]; simpl; intros st st' Hwf H.
  - injection H as <-. exact Hwf.
  - destruct (assign env st image now d) as [[st1 f] |] eqn:Ha; [| discriminate H].
    apply (IH st1 st' (well_formed_assign _ _ _ _ _ _ Hwf Ha) H).
Qed.

Lemma face_id_reassign (source target : nat) (f : Face) :
  face_id (reassign source target f) = face_id f.
Proof. unfold reassign. destruct (in_group source f); reflexivity. Qed.

Lemma face_id_orphan (gid : nat) (f : Face) : face_id (orphan gid f) = face_id f.
Proof. unfold orphan. destruct (in_group gid f); reflexivity. Qed.

Lemma map_face_id_preserved (h : Face -> Face) (l : list Face) :
  (forall f, face_id (h f) = face_id f) -> map face_id (map h l) = map face_id l.
Proof. intro Hh. rewrite map_map. apply map_ext. exact Hh. Qed.

Lemma in_remove_group (gid : nat) (gs : list PersonGroup) (g : PersonGroup) :
  In g (remove_group gid gs) <-> In g gs /\ group_id g <> gid.
Proof.
  unfold remove_group. rewrite filter_In.
  destruct (Nat.eqb_spec (group_id g) gid); simpl; intuition discriminate.
Qed.

(** A face of a group other than [gid] is not touched by an update of the
    faces of [gid]. *)
Lemma other_group_untouched (gid : nat) (g : PersonGroup) (f : Face) :
  group_id g <> gid -> person_group_id f = Some (group_id g) -> in_group gid f = false.
Proof.
  intros Hne Hf. unfold in_group. rewrite Hf. apply Nat.eqb_neq. exact Hne.
Qed.

Lemma well_formed_merge (st st' : Store) (source target : nat) :
  well_formed st -> merge st source target = Ok st' -> well_formed st'.
Proof.
  intros Hwf. unfold merge.
  destruct (group_exists st source); [| intro H; injection H as <-; exact Hwf].
  destruct (group_exists st target); [| discriminate].
  intro H; injection H as <-.
  destruct Hwf as [Hfresh Huniq Hgfresh Hguniq Hrep].
  constructor; simpl.
  - intros f Hin. apply in_map_iff in Hin. destruct Hin as (f0 & <- & Hf0).
    rewrite face_id_reassign. apply Hfresh. exact Hf0.
  - rewrite map_face_id_preserved; [exact Huniq | apply face_id_reassign].
  - intros g Hg. apply in_remove_group in Hg. apply Hgfresh. exact (proj1 Hg).
  - apply NoDup_map_filter. exact Hguniq.
  - intros g Hg. apply in_remove_group in Hg. destruct Hg as [Hg Hne].
    destruct (Hrep g Hg) as (f & Hf & Hr & Hp).
    exists f. split; [| split; assumption].
    replace f with (reassign source target f) at 1; [apply in_map; exact Hf |].
    unfold reassign. rewrite (other_group_untouched source g f Hne Hp). reflexivity.
Qed.

Lemma well_formed_delete_group (st st' : Store) (gid : nat) :
  well_formed st -> delete_group env st gid = Ok st' -> well_formed st'.
Proof.
  intros Hwf. unfold delete_group.
  destruct (group_exists st gid); [| discriminate].
  intro H; injection H as <-.
  destruct Hwf as [Hfresh Huniq Hgfresh Hguniq Hrep].
  constructor; simpl.
  - intros f Hin. destruct (delete_policy env).
    + apply in_map_iff in Hin. destruct Hin as (f0 & <- & Hf0).
      rewrite face_id_orphan. apply Hfresh. exact Hf0.
    + apply filter_In in Hin. apply Hfresh. exact (proj1 Hin).
  - destruct (delete_policy env).
    + rewrite map_face_id_preserved; [exact Huniq | apply face_id_orphan].
    + apply NoDup_map_filter. exact Huniq.
  - intros g Hg. apply in_remove_group in Hg. apply Hgfresh. exact (proj1 Hg).
  - apply NoDup_map_filter. exact Hguniq.
  - intros g Hg. apply in_remove_group in Hg. destruct Hg as [Hg Hne].
    destruct (Hrep g Hg) as (f & Hf & Hr & Hp).
    pose proof (other_group_untouched gid g f Hne Hp) as Hout.
    exists f. split; [| split; assumption].
    destruct (delete_policy env).
    + replace f with (orphan gid f) at 1; [apply in_map; exact Hf |].
      unfold orphan. rewrite Hout. reflexivity.
    + apply filter_In. split; [exact Hf | rewrite Hout; reflexivity].
Qed.

End StoreInvariant.

Section Reprocessing.
Import Core.
Local Open Scope nat_scope.

Variable env : Env.

(** The chosen representative is one of the candidates. *)
Lemma fold_pick_In (l : list Face) :
  forall acc f, fold_left pick l acc = Some f -> In f l \/ acc = Some f.
Proof.
  induction l as [| a l IH]; simpl; intros acc f H; [right; exact H |].
  destruct (IH _ _ H) as [Hin | Hacc]; [left; right; exact Hin |].
  unfold pick in Hacc. destruct acc as [b |].
  - destruct (preferred a b); injection Hacc as <-; auto.
  - injection Hacc as <-. auto.
Qed.

Lemma choose_representative_In (l : list Face) (f : Face) :
  choose_representative l = Some f -> In f l.
Proof.
  intro H. destruct (fold_pick_In l None f H) as [Hin | Hnone];
    [exact Hin | discriminate Hnone].
Qed.

Lemma fold_pick_Some (l : list Face) :
  forall b, exists f, fold_left pick l (Some b) = Some f.
Proof.
  induction l as [| a l IH]; simpl; intro b; [eauto |].
  destruct (preferred a b); apply IH.
Qed.

(** Only a group without remaining members gets no representative. *)
Lemma choose_representative_None (l : list Face) :
  choose_representative l = None -> l = [].
Proof.
  destruct l as [| a l]; [reflexivity |]. unfold choose_representative. simpl.
  destruct (fold_pick_Some l a) as (f & ->). discriminate.
Qed.

(** Maintenance keeps a group, with its identifier, or removes it. *)
Lemma maintain_cases (deleted remaining : list Face) (now : nat) (g : PersonGroup) :
  maintain deleted remaining now g = []
  \/ exists g', maintain deleted remaining now g = [g'] /\ group_id g' = group_id g.
Proof.
  unfold maintain. destruct (representative_deleted deleted g).
  - destruct (choose_representative _); [right; eexists; split; reflexivity | left; reflexivity].
  - right. exists g. split; reflexivity.
Qed.

Lemma in_maintained (deleted remaining : list Face) (now : nat)
    (gs : list PersonGroup) (g' : PersonGroup) :
  In g' (flat_map (maintain deleted remaining now) gs) ->
  exists g, In g gs /\ In g' (maintain deleted remaining now g)
            /\ group_id g' = group_id g.
Proof.
  intro H. apply in_flat_map in H. destruct H as (g & Hg & Hin).
  exists g. split; [exact Hg |]. split; [exact Hin |].
  destruct (maintain_cases deleted remaining now g) as [E | (g0 & E & Hid)];
    rewrite E in Hin; [destruct Hin |].
  destruct Hin as [<- | []]. exact Hid.
Qed.

Lemma maintained_unique (deleted remaining : list Face) (now : nat)
    (gs : list PersonGroup) :
  NoDup (map group_id gs) ->
  NoDup (map group_id (flat_map (maintain deleted remaining now) gs)).
Proof.
  induction gs as [| g gs IH]; simpl; intro H; [constructor |].
  inversion H as [| ? ? Hnotin Hrest]; subst.
  destruct (maintain_cases deleted remaining now g) as [E | (g0 & E & Hid)];
    rewrite E; simpl; [apply IH; exact Hrest |].
  constructor; [| apply IH; exact Hrest].
  intro Hin. apply in_map_iff in Hin. destruct Hin as (g1 & Hid1 & Hg1).
  apply in_maintained in Hg1. destruct Hg1 as (g2 & Hg2 & _ & Hid2).
  apply Hnotin. rewrite <- Hid, <- Hid1, Hid2. apply in_map. exact Hg2.
Qed.

Lemma well_formed_retract (st : Store) (image now : nat) :
  well_formed st -> well_formed (retract st image now).
Proof.
  intros [Hfresh Huniq Hgfresh Hguniq Hrep].
  constructor; simpl.
  - intros f Hin. apply filter_In in Hin. apply Hfresh. exact (proj1 Hin).
  - apply NoDup_map_filter. exact Huniq.
  - intros g' Hin. apply in_maintained in Hin. destruct Hin as (g & Hg & _ & ->).
    apply Hgfresh. exact Hg.
  - apply maintained_unique. exact Hguniq.
  - intros g' Hin. apply in_maintained in Hin. destruct Hin as (g & Hg & Hin & Hid).
    unfold maintain in Hin.
    destruct (representative_deleted _ g) eqn:Hdel.
    + destruct (choose_representative _) as [f |] eqn:Hch; [| destruct Hin].
      destruct Hin as [<- | []]. simpl.
      apply choose_representative_In in Hch. apply filter_In in Hch.
      destruct Hch as [Hf Hmember]. apply in_group_true in Hmember.
      exists f. auto.
    + destruct Hin as [<- | []].
      destruct (Hrep g Hg) as (f & Hf & Hr & Hp).
      exists f. split; [| split; assumption].
      apply filter_In. split; [exact Hf |].
      destruct (image_id f =? image) eqn:Himg; [| reflexivity].
      exfalso. unfold representative_deleted in Hdel. rewrite Hr in Hdel.
      assert (Hex : existsb (fun f0 => face_id f0 =? face_id f)
                      (filter (fun f0 => image_id f0 =? image) (faces st)) = true).
      { apply existsb_exists. exists f. split; [| apply Nat.eqb_refl].
        apply filter_In. split; assumption. }
      rewrite Hex in Hdel. discriminate Hdel.
Qed.

Lemma well_formed_attempt (before work : Store) (i : Image) (now : nat)
    (detected : Result (list Detection)) :
  well_formed before -> well_formed work ->
  well_formed (store (attempt env before work i now detected)).
Proof.
  intros Hb Hw. unfold attempt. destruct detected as [ds | err]; simpl; [| exact Hb].
  destruct (assign_all env work (img_id i) now ds) as [st' | err] eqn:Ha; simpl;
    [| exact Hb].
  apply (well_formed_assign_all env _ _ _ _ _ Hw Ha).
Qed.

Lemma well_formed_step (st : Store) (op : Op) :
  well_formed st -> well_formed (step env st op).
Proof.
  intro Hwf. destruct op as [image now d | i now detected | i now detected
                             | source target | gid]; simpl.
  - destruct (assign env st image now d) as [[st' f] | err] eqn:Ha; [| exact Hwf].
    apply (well_formed_assign env _ _ _ _ _ _ Hwf Ha).
  - unfold process. destruct (is_processing i); [exact Hwf |].
    apply well_formed_attempt; exact Hwf.
  - unfold reprocess. destruct (is_processing i); [exact Hwf |].
    apply well_formed_attempt; [exact Hwf | apply well_formed_retract; exact Hwf].
  - destruct (merge st source target) as [st' | err] eqn:Hm; simpl; [| exact Hwf].
    apply (well_formed_merge _ _ _ _ Hwf Hm).
  - destruct (delete_group env st gid) as [st' | err] eqn:Hd; simpl; [| exact Hwf].
    apply (well_formed_delete_group env _ _ _ Hwf Hd).
Qed.

Lemma well_formed_fold (ops : list Op) :
  forall st, well_formed st -> well_formed (fold_left (step env) ops st).
Proof.
  induction ops as [| op ops IH]; simpl; intros st Hwf; [exact Hwf |].
  apply IH. apply well_formed_step. exact Hwf.
Qed.

(** Every store reached from the empty catalog is consistent. *)
Lemma well_formed_run_ops (ops : list Op) : well_formed (run_ops env ops).
Proof. apply well_formed_fold. apply well_formed_empty. Qed.

(** C2.  After any sequence of assign, process, reprocess, merge and delete
    operations (hence after each operation of the sequence, every prefix
    being a sequence), every PersonGroup of the store has at least one member
    Face: no group with zero members exists. *)
Theorem no_group_without_members :
  forall (ops : list Op) (g : PersonGroup),
    In g (groups (run_ops env ops)) ->
    0 < member_count (run_ops env ops) g.
Proof.
  intros ops g Hg.
  destruct (wf_representative _ (well_formed_run_ops ops) g Hg) as (f & Hf & _ & Hp).
  unfold member_count, members.
  assert (Hin : In f (filter (in_group (group_id g)) (faces (run_ops env ops)))).
  { apply filter_In. split; [exact Hf | apply in_group_true; exact Hp]. }
  destruct (filter _ _); [destruct Hin | simpl; lia].
Qed.

(** C3.  In every store reached from the empty catalog, the
    [representative_face_id] of every PersonGroup is not null, and the Face
    it references is stored and has the group's own id as its
    [person_group_id]. *)
Theorem representative_is_a_member :
  forall (ops : list Op) (g : PersonGroup),
    In g (groups (run_ops env ops)) ->
    representative_face_id g <> None
    /\ representative_ok (run_ops env ops) g.
Proof.
  intros ops g Hg.
  pose proof (well_formed_run_ops ops) as Hwf.
  destruct (wf_representative _ Hwf g Hg) as (f & Hf & Hr & Hp).
  split; [rewrite Hr; discriminate |].
  exists (face_id f), f. split; [exact Hr |]. split; [| exact Hp].
  apply find_face_stored; [apply (wf_face_unique _ Hwf) | exact Hf].
Qed.

End Reprocessing.

(** After the three images and the redo of image 1, the first group is
    still there, with the face of image 2 as its member and
    representative. *)
Lemma no_group_without_members_witness :
  Core.run_ops Samples.env (firstn 1 Samples.three_images) = Samples.after_first
  /\ In Samples.first_group_redone
        (Core.groups (Core.run_ops Samples.env Samples.redo_first))
  /\ (0 < Core.member_count (Core.run_ops Samples.env Samples.redo_first)
                            Samples.first_group_redone)%nat.
Proof.
  split; [reflexivity |].
  assert (Hin : In Samples.first_group_redone
                   (Core.groups (Core.run_ops Samples.env Samples.redo_first))).
  { left. reflexivity. }
  split; [exact Hin |].
  exact (no_group_without_members Samples.env Samples.redo_first
           Samples.first_group_redone Hin).
Defined.

Lemma representative_is_a_member_witness :
  In Samples.first_group_redone
     (Core.groups (Core.run_ops Samples.env Samples.redo_first))
  /\ Core.representative_face_id Samples.first_group_redone = Some 1%nat
  /\ Core.representative_ok (Core.run_ops Samples.env Samples.redo_first)
                            Samples.first_group_redone.
Proof.
  assert (Hin : In Samples.first_group_redone
                   (Core.groups (Core.run_ops Samples.env Samples.redo_first))).
  { left. reflexivity. }
  split; [exact Hin |]. split; [reflexivity |].
  exact (proj2 (representative_is_a_member Samples.env Samples.redo_first
                  Samples.first_group_redone Hin)).
Defined.

(** ** The scenarios of the design document, run on the model *)

(** Threshold 0.6: image 1 opens group 0, image 2 (similarity 0.8) joins it,
    image 3 (similarity 0.28) opens group 1. *)
Example three_images_two_groups :
  map Core.person_group_id (Core.faces (Core.run_ops Samples.env Samples.three_images))
  = [Some 0%nat; Some 0%nat; Some 1%nat]
  /\ map Core.representative_face_id
         (Core.groups (Core.run_ops Samples.env Samples.three_images))
     = [Some 0%nat; Some 2%nat].
Proof. split; reflexivity. Qed.

(** Merging group 1 into group 0 moves its face and deletes it; merging
    again is a no-op. *)
Example merge_moves_faces :
  map Core.face_id
      (Core.members (Core.run_ops Samples.env (Samples.three_images ++ [Core.OpMerge 1 0])) 0)
  = [0%nat; 1%nat; 2%nat]
  /\ map Core.group_id
         (Core.groups (Core.run_ops Samples.env (Samples.three_images ++ [Core.OpMerge 1 0])))
     = [0%nat]
  /\ Core.run_ops Samples.env (Samples.three_images ++ [Core.OpMerge 1 0; Core.OpMerge 1 0])
     = Core.run_ops Samples.env (Samples.three_images ++ [Core.OpMerge 1 0]).
Proof. repeat split. Qed.

(** Redoing image 1 with no detection deletes the representative of group
    0; the face of image 2 takes over. *)
Example redo_reassigns_representative :
  Core.groups (Core.run_ops Samples.env Samples.redo_first)
  = [Samples.first_group_redone; Core.mkGroup 1 None (Some 2%nat) 12 12].
Proof. reflexivity. Qed.

(* ================================================================== *)
(** * Further properties of the front end *)
(* ================================================================== *)

(** ** The API client, continued *)

Section ClientPaths.
Import Types Api.

Variable server : Request -> Data.

(** The form of an upload holds every file once, in order, under the key
    [files], and one request carries it; an empty selection still makes one
    request, with an empty form. *)
Theorem upload_form_holds_every_file :
  forall fs : list File,
    exists entries,
      requests server (uploadApi.upload fs)
      = [mkRequest POST "/api/upload" [] (FormData entries)]
      /\ map snd entries = fs
      /\ Forall (fun entry => fst entry = "files") entries
      /\ List.length entries = List.length fs.
Proof.
  intro fs. exists (map (fun file => ("files", file)) fs).
  split; [reflexivity |]. split; [| split].
  - rewrite map_map. simpl. apply map_id.
  - apply Forall_forall. intros entry Hin. apply in_map_iff in Hin.
    destruct Hin as (file & <- & _). reflexivity.
  - apply length_map.
Qed.

(** The file URL of an image, which [getImageUrl] spells out with the
    prefix [/api], is the URL that [imagesApi.get] requests through the
    client's base URL, followed by [/file]. *)
Theorem image_url_follows_base_url :
  forall id : string,
    exists r,
      requests server (imagesApi.get id) = [r]
      /\ method r = GET
      /\ imagesApi.getImageUrl id = String.append (url r) "/file".
Proof.
  intro id. eexists. split; [reflexivity |]. split; [reflexivity |].
  unfold imagesApi.getImageUrl, tpl, baseURL. simpl. reflexivity.
Qed.

(** An id goes into the path as it is, unescaped: an id that ends in
    [/faces] (or [/images]) makes the accessor of one resource send the
    request of the sub-resource accessor, and get its answer. *)
Theorem ids_are_not_escaped :
  forall id : string,
    run server (imagesApi.get (String.append id "/faces"))
    = run server (imagesApi.getFaces id)
    /\ run server (groupsApi.get (String.append id "/faces"))
       = run server (groupsApi.getFaces id)
    /\ run server (groupsApi.get (String.append id "/images"))
       = run server (groupsApi.getImages id)
    /\ run server (imagesApi.get (String.append id "/detection-debug"))
       = run server (imagesApi.getDetectionDebug id).
Proof. intro id. repeat split. Qed.

End ClientPaths.

(** ** The upload view, continued *)

Section UploadHandlers.
Import Types Api ImageUpload UploadView.
Local Open Scope Z_scope.

(** [(_, i) => i !== index] *)
Definition other_than (index : Z) : File -> Z -> bool :=
  fun _ i => negb (i =? index).

Lemma filter_from_app (keep : File -> Z -> bool) (l1 l2 : list File) :
  forall i,
    filter_from keep i (l1 ++ l2)
    = filter_from keep i l1 ++ filter_from keep (i + Z.of_nat (List.length l1)) l2.
Proof.
  induction l1 as [| x l1 IH]; intro i; simpl.
  - replace (i + 0) with i by lia. reflexivity.
  - rewrite IH.
    replace (i + 1 + Z.of_nat (List.length l1))
      with (i + Z.pos (Pos.of_succ_nat (List.length l1))) by lia.
    destruct (keep x i); reflexivity.
Qed.

(** Counting positions from [i + d] and dropping [index + d] is counting
    from [i] and dropping [index]. *)
Lemma filter_from_shift (d index : Z) (l : list File) :
  forall i,
    filter_from (other_than (index + d)) (i + d) l = filter_from (other_than index) i l.
Proof.
  induction l as [| x l IH]; intro i; simpl; [reflexivity |].
  replace (i + d + 1) with (i + 1 + d) by lia. rewrite IH.
  assert (E : other_than (index + d) x (i + d) = other_than index x i).
  { unfold other_than. f_equal.
    destruct (Z.eqb_spec (i + d) (index + d)), (Z.eqb_spec i index);
      try reflexivity; exfalso; lia. }
  rewrite E. reflexivity.
Qed.

Lemma files_handleFileInput (selected : list File) (st : State) :
  files (handleFileInput selected st) = files st ++ selected.
Proof.
  destruct selected; simpl; [rewrite app_nil_r |]; reflexivity.
Qed.

(** The handlers that add files append the new files after the ones already
    selected, in the order given; an empty selection changes nothing; a drop
    always ends the drag highlight, a selection from the dialog never touches
    it, and drag events of any type never touch the files. *)
Theorem adding_files_appends :
  forall (selected : list File) (st : State) (type : string),
    files (handleFileInput selected st) = files st ++ selected
    /\ files (handleDrop selected st) = files st ++ selected
    /\ handleFileInput [] st = st
    /\ dragActive (handleDrop selected st) = false
    /\ dragActive (handleFileInput selected st) = dragActive st
    /\ files (handleDrag type st) = files st.
Proof.
  intros selected st type. split; [apply files_handleFileInput |].
  split; [destruct selected; simpl; [rewrite app_nil_r |]; reflexivity |].
  split; [reflexivity |].
  split; [destruct selected; reflexivity |].
  split; [destruct selected; reflexivity |].
  unfold handleDrag.
  destruct (_ || _); [reflexivity |].
  destruct (String.eqb type "dragleave"); reflexivity.
Qed.

(** Removing a position of the files just added leaves the earlier files
    alone and removes that position of the added ones; in particular, adding
    one file and removing the last position gives the list back. *)
Theorem removing_an_added_file :
  forall (selected : list File) (st : State) (k : Z),
    0 <= k ->
    files (removeFile (Z.of_nat (List.length (files st)) + k)
                      (handleFileInput selected st))
    = files st ++ files (removeFile k (mkState selected false)).
Proof.
  intros selected st k Hk.
  unfold removeFile at 1. unfold setFiles. simpl files at 1.
  rewrite files_handleFileInput. unfold array_filter.
  fold (other_than (Z.of_nat (List.length (files st)) + k)).
  rewrite filter_from_app. f_equal.
  - apply filter_from_outside. right. lia.
  - unfold removeFile, setFiles, array_filter. simpl files. fold (other_than k).
    rewrite <- (filter_from_shift (Z.of_nat (List.length (files st))) k selected 0).
    rewrite (Z.add_comm k). reflexivity.
Qed.

Lemma other_than_outside (index : Z) (l : list File) (i : Z) :
  index < i -> filter_from (other_than index) i l = l.
Proof. intro H. apply filter_from_outside. left. exact H. Qed.

Lemma other_than_same (index : Z) (x : File) : other_than index x index = false.
Proof. unfold other_than. rewrite Z.eqb_refl. reflexivity. Qed.

Lemma other_than_different (index i : Z) (x : File) :
  i <> index -> other_than index x i = true.
Proof. intro H. unfold other_than. apply Z.eqb_neq in H. rewrite H. reflexivity. Qed.

Lemma remove_commute_from (i j : Z) (l : list File) :
  forall off,
    off <= i < j ->
    filter_from (other_than i) off (filter_from (other_than j) off l)
    = filter_from (other_than (j - 1)) off (filter_from (other_than i) off l).
Proof.
  induction l as [| x l IH]; intros off Hoff; simpl; [reflexivity |].
  rewrite (other_than_different j off x) by lia. simpl.
  destruct (Z.eq_dec off i) as [E | NE].
  - subst off. rewrite !other_than_same.
    rewrite (other_than_outside i (filter_from (other_than j) (i + 1) l) (i + 1)) by lia.
    rewrite (other_than_outside i l (i + 1)) by lia.
    replace j with (j - 1 + 1) at 1 by lia.
    apply (filter_from_shift 1 (j - 1) l i).
  - rewrite !(other_than_different i off x) by lia. simpl.
    rewrite (other_than_different (j - 1) off x) by lia.
    f_equal. apply IH. lia.
Qed.

(** Two removals commute, once the later position is shifted by the earlier
    removal: removing [j] and then [i < j] is removing [i] and then
    [j - 1]. *)
Theorem removals_commute :
  forall (i j : Z) (st : State),
    0 <= i < j ->
    removeFile i (removeFile j st) = removeFile (j - 1) (removeFile i st).
Proof.
  intros i j [fs drag] Hij. unfold removeFile, setFiles, array_filter. simpl.
  f_equal. apply (remove_commute_from i j fs 0 Hij).
Qed.

End UploadHandlers.

(** One file is added to the three picked ones and removed again. *)
Lemma removing_an_added_file_witness :
  ImageUpload.files
    (ImageUpload.removeFile 3
       (ImageUpload.handleFileInput [Types.mkFile "d.heic" [4%nat]]
          (ImageUpload.mkState Samples.picked false)))
  = Samples.picked ++ [].
Proof.
  exact (removing_an_added_file [Types.mkFile "d.heic" [4%nat]]
           (ImageUpload.mkState Samples.picked false) 0 (Z.le_refl 0)).
Defined.

(** Of three picked files, dropping the third and then the first is dropping
    the first and then the second. *)
Lemma removals_commute_witness :
  ImageUpload.removeFile 0 (ImageUpload.removeFile 2 (ImageUpload.mkState Samples.picked false))
  = ImageUpload.removeFile 1 (ImageUpload.removeFile 0 (ImageUpload.mkState Samples.picked false))
  /\ ImageUpload.files
       (ImageUpload.removeFile 0
          (ImageUpload.removeFile 2 (ImageUpload.mkState Samples.picked false)))
     = [Types.mkFile "b.png" [2%nat]].
Proof.
  split; [| reflexivity].
  exact (removals_commute 0 2 (ImageUpload.mkState Samples.picked false)
           (conj (Z.le_refl 0) (proj1 (Z.ltb_lt 0 2) eq_refl))).
Defined.

Section UploadList.
Import Types Api ImageUpload UploadView.
Local Open Scope Z_scope.

(** The rows made from position [i] on carry the positions [i], [i + 1],
    ... of their files. *)
Lemma rows_from (l : list File) :
  forall (i : Z) (e : Element),
    In e (List.concat (map_from row i l)) ->
    (exists text, e = FileName text)
    \/ (exists index, e = Control "Remove" (RemoveFile index) false
                      /\ i <= index < i + Z.of_nat (List.length l)).
Proof.
  induction l as [| x l IH]; intros i e Hin; simpl in Hin; [contradiction |].
  destruct Hin as [<- | [<- | Hin]].
  - left. eauto.
  - right. exists i. split; [reflexivity |]. simpl List.length. lia.
  - destruct (IH (i + 1) e Hin) as [Htext | (index & He & Hrange)];
      [left; exact Htext |].
    right. exists index. split; [exact He |]. simpl List.length. lia.
Qed.

Lemma rows_count (l : list File) :
  forall i, List.length (filter is_remove (List.concat (map_from row i l))) = List.length l.
Proof.
  induction l as [| x l IH]; intro i; simpl; [reflexivity |].
  rewrite IH. reflexivity.
Qed.

Lemma removal_shortens (index : Z) (l : list File) :
  0 <= index < Z.of_nat (List.length l) ->
  S (List.length (filter_from (fun _ i => negb (i =? index)) 0 l)) = List.length l.
Proof.
  intro Hin. rewrite (filter_from_inside index l 0) by lia.
  rewrite length_app, length_firstn, length_skipn. lia.
Qed.

(** The list shows one Remove button per selected file.  Every Remove button
    is enabled and bound to a position within the list, so a click on it
    removes exactly one file and sends no request. *)
Theorem remove_buttons_match_files :
  forall (server : Request -> Data) (st : State) (isPending : bool),
    List.length (filter is_remove (render st isPending)) = List.length (files st)
    /\ forall label index disabled,
         In (Control label (RemoveFile index) disabled) (render st isPending) ->
         disabled = false
         /\ 0 <= index < Z.of_nat (List.length (files st))
         /\ fst (click server (Control label (RemoveFile index) disabled) st)
            = removeFile index st
         /\ S (List.length (files (removeFile index st))) = List.length (files st)
         /\ snd (click server (Control label (RemoveFile index) disabled) st) = [].
Proof.
  intros server st isPending. unfold render. split.
  - destruct (files st) as [| x l] eqn:Hfiles.
    + destruct isPending; reflexivity.
    + rewrite filter_app. rewrite length_app.
      change (Heading ?h :: ?a ++ ?b) with ((Heading h :: a) ++ b).
      rewrite filter_app, length_app. simpl filter at 1.
      simpl List.length at 1. rewrite rows_count.
      destruct isPending; simpl; lia.
  - intros label index disabled Hin.
    assert (Hrow : In (Control label (RemoveFile index) disabled)
                      (List.concat (array_map row (files st)))).
    { destruct (files st) as [| x l] eqn:Hfiles.
      - destruct isPending; simpl in Hin; [destruct Hin as [H | []]; discriminate H
                                          | contradiction].
      - apply in_app_or in Hin. destruct Hin as [Hin | Hin].
        + destruct Hin as [H | Hin]; [discriminate H |].
          apply in_app_or in Hin. destruct Hin as [Hin | [H | []]];
            [exact Hin | discriminate H].
        + destruct isPending; simpl in Hin; [destruct Hin as [H | []]; discriminate H
                                            | contradiction]. }
    apply rows_from in Hrow.
    destruct Hrow as [(text & H) | (i & H & Hrange)]; [discriminate H |].
    injection H as -> -> ->.
    split; [reflexivity |]. split; [lia |]. split; [reflexivity |].
    split; [| reflexivity].
    unfold removeFile, setFiles, array_filter. simpl files.
    apply removal_shortens. lia.
Qed.

Lemma requests_upload (server : Request -> Data) (fs : list File) :
  requests server (uploadApi.upload fs) = [upload_request fs].
Proof. reflexivity. Qed.

(** A click in the list never sends an empty upload and never sends one
    while an upload is pending: whatever is clicked, either no request goes
    out, or exactly one, the upload of all the selected files, of which there
    is at least one, with no upload pending.  Once an upload has succeeded
    the selection is empty and [handleUpload] sends nothing. *)
Theorem upload_is_sent_once_with_files :
  forall (server : Request -> Data) (st : State) (isPending : bool) (e : Element),
    In e (render st isPending) ->
    (snd (click server e st) = []
     \/ (snd (click server e st) = [upload_request (files st)]
         /\ form_files (body (upload_request (files st))) = files st
         /\ files st <> []
         /\ isPending = false
         /\ fst (click server e st) = st))
    /\ requests server (handleUpload (settle true st)) = []
    /\ render (settle true st) false = [].
Proof.
  intros server st isPending e Hin.
  split; [| split; reflexivity].
  destruct e as [text | text | label [index | ] [|] | ]; simpl; auto.
  right. unfold handleUpload.
  destruct (files st) as [| x l] eqn:Hfiles.
  - exfalso. unfold render in Hin. rewrite Hfiles in Hin.
    destruct isPending; simpl in Hin; [destruct Hin as [H | []]; discriminate H
                                      | contradiction].
  - rewrite requests_upload. split; [reflexivity |].
    split; [unfold upload_request, form_files; simpl body;
            rewrite map_map; apply map_id |].
    split; [discriminate |]. split; [| reflexivity].
    destruct isPending; [| reflexivity].
    exfalso. unfold render in Hin. rewrite Hfiles in Hin.
    apply in_app_or in Hin. destruct Hin as [Hin | [H | []]]; [| discriminate H].
    destruct Hin as [H | Hin]; [discriminate H |].
    apply in_app_or in Hin. destruct Hin as [Hin | [H | []]]; [| discriminate H].
    apply rows_from in Hin.
    destruct Hin as [(text & H) | (i & H & _)]; discriminate H.
Qed.

End UploadList.

(** With three picked files, the Remove button of the second row. *)
Lemma remove_buttons_match_files_witness :
  In (UploadView.Control "Remove" (UploadView.RemoveFile 1) false)
     (UploadView.render (ImageUpload.mkState Samples.picked false) false)
  /\ S (List.length (ImageUpload.files
                       (ImageUpload.removeFile 1 (ImageUpload.mkState Samples.picked false))))
     = 3%nat.
Proof.
  assert (Hin : In (UploadView.Control "Remove" (UploadView.RemoveFile 1) false)
                   (UploadView.render (ImageUpload.mkState Samples.picked false) false)).
  { simpl. auto 10. }
  split; [exact Hin |].
  exact (proj1 (proj2 (proj2 (proj2
           (proj2 (remove_buttons_match_files Samples.paging_server
                     (ImageUpload.mkState Samples.picked false) false)
                  "Remove" 1%Z false Hin))))).
Defined.

(** With three picked files, the upload button sends them. *)
Lemma upload_is_sent_once_with_files_witness :
  In (UploadView.Control "Upload 3 Image(s)" UploadView.HandleUpload false)
     (UploadView.render (ImageUpload.mkState Samples.picked false) false)
  /\ snd (UploadView.click Samples.paging_server
            (UploadView.Control "Upload 3 Image(s)" UploadView.HandleUpload false)
            (ImageUpload.mkState Samples.picked false))
     = [UploadView.upload_request Samples.picked]
  /\ Api.requests Samples.paging_server
       (UploadView.handleUpload
          (UploadView.settle true (ImageUpload.mkState Samples.picked false))) = [].
Proof.
  assert (Hin : In (UploadView.Control "Upload 3 Image(s)" UploadView.HandleUpload false)
                   (UploadView.render (ImageUpload.mkState Samples.picked false) false)).
  { simpl. auto 12. }
  split; [exact Hin |]. split; [reflexivity |].
  exact (proj1 (proj2 (upload_is_sent_once_with_files Samples.paging_server
                         (ImageUpload.mkState Samples.picked false) false _ Hin))).
Defined.

(** ** The image detail view, continued *)

Section ImageDetailButtons.
Import Types Api View.

Variable server : Request -> Data.
Variable imageId : string.

(** What an element of the page of an image can be: a text, the back
    button, a retry button that is disabled exactly while a retry is pending,
    or (for a completed image) a test button that is disabled exactly while a
    test is pending. *)
Definition page_element (image : Image.t) (retryPending debugPending : bool)
    (e : Element) : Prop :=
  match e with
  | Text _ => True
  | Button _ HistoryBack disabled => disabled = false
  | Button _ RetryMutate disabled => disabled = retryPending
  | Button _ DebugMutate disabled =>
      disabled = debugPending /\ Image.processing_status image = completed
  end.

Lemma face_lines_are_texts (image : Image.t) (rp dp : bool) (l : list Face.t) :
  Forall (page_element image rp dp) (map face_line l).
Proof. induction l as [| f l IH]; simpl; constructor; [exact I | exact IH]. Qed.

Lemma face_lines_no_retry (l : list Face.t) :
  filter offers_retry (map face_line l) = [].
Proof. induction l as [| f l IH]; simpl; [reflexivity | exact IH]. Qed.

Lemma polling_page_elements (image : Image.t) (faces : option (list Face.t))
    (rp dp : bool) :
  Forall (page_element image rp dp)
         (elements_of (ImageDetailPolling.render false false (Some image) faces rp dp)).
Proof.
  simpl. unfold ImageDetailPolling.status_row, ImageDetailPolling.faces_block.
  repeat constructor.
  destruct (Image.processing_status image) eqn:Hs; simpl; repeat constructor;
    try reflexivity; try exact Hs.
  destruct (has_faces faces); simpl.
  - constructor; [exact I |]. apply Forall_app. split.
    + apply face_lines_are_texts.
    + repeat constructor.
  - repeat constructor.
Qed.

Lemma first_page_elements (image : Image.t) (faces : option (list Face.t))
    (rp dp : bool) :
  Forall (page_element image rp dp)
         (elements_of (ImageDetail.render false false (Some image) faces rp)).
Proof.
  simpl. unfold ImageDetail.faces_block.
  repeat constructor.
  destruct (Image.processing_status image) eqn:Hs; simpl; repeat constructor.
  destruct (has_faces faces); simpl; repeat constructor.
  apply face_lines_are_texts.
Qed.

(** Only a loaded image has a page: while a query is loading, and when there
    is no image, nothing can be clicked. *)
Lemma elements_need_an_image (imageLoading facesLoading : bool)
    (image : option Image.t) (faces : option (list Face.t)) (rp dp : bool) (e : Element) :
  In e (elements_of (ImageDetail.render imageLoading facesLoading image faces rp))
  \/ In e (elements_of (ImageDetailPolling.render imageLoading facesLoading image
                          faces rp dp)) ->
  exists img, image = Some img /\ imageLoading = false /\ facesLoading = false.
Proof.
  unfold ImageDetail.render, ImageDetailPolling.render.
  destruct imageLoading, facesLoading; simpl; try (intros [[] | []]).
  destruct image as [img |]; simpl; [eauto | intros [[] | []]].
Qed.

(** While a retry is pending, every button bound to the retry is disabled,
    in both revisions of the view: a click that sends the retry request is
    possible only when no retry is pending. *)
Theorem no_second_retry_while_pending :
  forall (imageLoading facesLoading : bool)
         (image : option Image.t) (faces : option (list Face.t))
         (retryPending debugPending : bool) (e : Element),
    In e (elements_of (ImageDetail.render imageLoading facesLoading image faces
                         retryPending))
    \/ In e (elements_of (ImageDetailPolling.render imageLoading facesLoading image
                            faces retryPending debugPending)) ->
    In (retry_request imageId) (click server imageId e) ->
    retryPending = false.
Proof.
  intros imageLoading facesLoading image faces rp dp e Hin Hclick.
  destruct (elements_need_an_image _ _ _ _ _ _ _ Hin) as (img & -> & -> & ->).
  assert (He : page_element img rp dp e).
  { destruct Hin as [Hin | Hin].
    - exact (proj1 (Forall_forall _ _) (first_page_elements img faces rp dp) e Hin).
    - exact (proj1 (Forall_forall _ _) (polling_page_elements img faces rp dp) e Hin). }
  destruct e as [text | label [| |] disabled]; simpl in Hclick, He.
  - contradiction.
  - subst disabled. destruct Hclick.
  - subst disabled. destruct rp; [destruct Hclick | reflexivity].
  - destruct disabled; [destruct Hclick |].
    destruct Hclick as [H | []]. discriminate H.
Qed.

(** The number of buttons bound to the retry, by status.  The first revision
    shows one for a failed or pending image and none otherwise.  The later
    revision shows one for a failed or pending image, two for a completed one
    (beside the status and below the faces or the notice, whether or not
    there are faces) and none for a processing one. *)
Theorem retry_buttons_by_status :
  forall (image : Image.t) (faces : option (list Face.t))
         (retryPending debugPending : bool),
    List.length
      (filter offers_retry
         (elements_of (ImageDetail.render false false (Some image) faces retryPending)))
    = match Image.processing_status image with
      | failed | pending => 1
      | completed | processing => 0
      end%nat
    /\ List.length
         (filter offers_retry
            (elements_of (ImageDetailPolling.render false false (Some image) faces
                            retryPending debugPending)))
       = match Image.processing_status image with
         | failed | pending => 1
         | completed => 2
         | processing => 0
         end%nat.
Proof.
  intros image faces rp dp. simpl.
  unfold ImageDetail.faces_block, ImageDetailPolling.status_row,
    ImageDetailPolling.faces_block.
  destruct (Image.processing_status image); simpl; split; try reflexivity.
  - destruct (has_faces faces); simpl; [| reflexivity].
    rewrite face_lines_no_retry. reflexivity.
  - destruct (has_faces faces); simpl; [| reflexivity].
    rewrite filter_app, face_lines_no_retry. reflexivity.
Qed.

End ImageDetailButtons.

(** The retry button of a failed image, with no retry pending. *)
Lemma no_second_retry_while_pending_witness :
  In (View.Button "Retry Processing" View.RetryMutate false)
     (View.elements_of
        (ImageDetail.render false false (Some (Samples.image Types.failed)) None false))
  /\ false = false.
Proof.
  assert (Hin : In (View.Button "Retry Processing" View.RetryMutate false)
     (View.elements_of
        (ImageDetail.render false false (Some (Samples.image Types.failed)) None false))).
  { simpl. auto 10. }
  split; [exact Hin |].
  exact (no_second_retry_while_pending Samples.paging_server "3f2a9c1e-img"
           false false (Some (Samples.image Types.failed)) None false false
           (View.Button "Retry Processing" View.RetryMutate false)
           (or_introl Hin) (or_introl eq_refl)).
Defined.

(** ** The people views *)

Section PeopleViews.
Import Types Api View.

Lemma substring_prefix_length (m : nat) :
  forall s : string, (String.length (String.substring 0 m s) <= m)%nat.
Proof.
  induction m as [| m IH]; intros [| c s]; simpl; try lia.
  specialize (IH s). lia.
Qed.

Lemma or_else_fallback (a : option string) (fallback : string) :
  fallback <> "" -> or_else a fallback <> "".
Proof.
  intro Hf. unfold or_else. destruct a as [s |]; [| exact Hf].
  destruct (String.eqb_spec s ""); assumption.
Qed.

(** The name shown for a group, on its card and on its page alike, is never
    empty: it is the group's name when that is neither null nor the empty
    string, and otherwise [Person] followed by the first eight characters
    (at most) of the group's id. *)
Theorem display_name_is_never_empty :
  forall group : PersonGroup.t,
    PersonCard.displayName group = PersonDetail.displayName group
    /\ PersonCard.displayName group <> ""
    /\ (forall name, PersonGroup.name group = Some name -> name <> "" ->
                     PersonCard.displayName group = name)
    /\ (PersonGroup.name group = None \/ PersonGroup.name group = Some "" ->
        PersonCard.displayName group
        = String.append "Person " (slice8 (PersonGroup.id group)))
    /\ (String.length (slice8 (PersonGroup.id group)) <= 8)%nat.
Proof.
  intro group. split; [reflexivity |]. split; [| split; [| split]].
  - apply or_else_fallback. discriminate.
  - intros name Hname Hne. unfold PersonCard.displayName. rewrite Hname. simpl.
    destruct (String.eqb_spec name ""); [contradiction | reflexivity].
  - intros [Hname | Hname]; unfold PersonCard.displayName; rewrite Hname; reflexivity.
  - apply substring_prefix_length.
Qed.


Lemma thumbnail_src (image : Image.t) :
  PersonPhotos.src (PersonPhotos.thumbnail image)
  = String.append "/api" (String.append (PersonPhotos.to (PersonPhotos.thumbnail image)) "/file").
Proof.
  unfold PersonPhotos.thumbnail, imagesApi.getImageUrl, tpl. simpl.
  reflexivity.
Qed.

(** The gallery of a person shows the message exactly when there is no
    image, and otherwise one link per image, in order; the picture of every
    link is the file of the very image the link leads to
    ([/api] + the link + [/file]).  The page of a person whose images have
    not arrived shows the message. *)
Theorem gallery_links_match_images :
  forall images : list Image.t,
    ((exists message, PersonPhotos.render images = PersonPhotos.NoPhotos message)
     <-> images = [])
    /\ List.length (PersonPhotos.links_of (PersonPhotos.render images))
       = List.length images
    /\ map PersonPhotos.to (PersonPhotos.links_of (PersonPhotos.render images))
       = map (fun image => String.append "/images/" (Image.id image)) images
    /\ (forall link, In link (PersonPhotos.links_of (PersonPhotos.render images)) ->
          PersonPhotos.src link
          = String.append "/api" (String.append (PersonPhotos.to link) "/file"))
    /\ (forall group : PersonGroup.t,
          PersonDetail.render false false (Some group) None
          = PersonDetail.Person (PersonDetail.displayName group)
              (PersonPhotos.NoPhotos "No photos found for this person.")).
Proof.
  intro images. split; [| split; [| split; [| split]]].
  - destruct images as [| image rest]; simpl; split.
    + reflexivity.
    + eauto.
    + intros (message & H). discriminate H.
    + discriminate.
  - destruct images as [| image rest]; simpl; [reflexivity |].
    rewrite length_map. reflexivity.
  - destruct images as [| image rest]; simpl; [reflexivity |].
    rewrite map_map. reflexivity.
  - intros link Hin. destruct images as [| image rest]; simpl in Hin; [contradiction |].
    destruct Hin as [<- | Hin]; [apply thumbnail_src |].
    apply in_map_iff in Hin. destruct Hin as (other & <- & _). apply thumbnail_src.
  - reflexivity.
Qed.

End PeopleViews.

(** ** Links to an image, and what the detail view can do for it *)

Section ImageLinks.
Import Types Api View.

Variable server : Request -> Data.

(** A card of the image grid and a link of a person's gallery lead to the
    same page of an image and show the same file of it; the image that the
    detail view requests for the id is the link under [/api], and the file is
    that followed by [/file].  The card carries a status badge exactly when
    the image is not completed, and the badge is the status. *)
Theorem image_card_leads_to_its_image :
  forall image : Image.t,
    ImageCard.to (ImageCard.render image)
    = PersonPhotos.to (PersonPhotos.thumbnail image)
    /\ ImageCard.src (ImageCard.render image)
       = PersonPhotos.src (PersonPhotos.thumbnail image)
    /\ requests server (imagesApi.get (Image.id image))
       = [mkRequest GET (String.append "/api" (ImageCard.to (ImageCard.render image)))
                    [] NoBody]
    /\ ImageCard.src (ImageCard.render image)
       = String.append "/api" (String.append (ImageCard.to (ImageCard.render image)) "/file")
    /\ (ImageCard.badge (ImageCard.render image) = None
        <-> Image.processing_status image = completed)
    /\ (forall text, ImageCard.badge (ImageCard.render image) = Some text ->
          text = literal (Image.processing_status image) /\ text <> "completed").
Proof.
  intro image. repeat (split; [reflexivity |]). split.
  - unfold ImageCard.render. simpl.
    destruct (Image.processing_status image); simpl; split; intro H;
      try reflexivity; discriminate H.
  - intros text. unfold ImageCard.render. simpl.
    destruct (Image.processing_status image); simpl; intro H;
      try discriminate H; injection H as <-; split; try reflexivity; discriminate.
Qed.

(** In the later revision of the detail view a loaded image is never left
    without a way forward: the view polls it or offers the retry, and it does
    both exactly for a pending image.  (A processing image is polled, a
    failed or completed one is offered the retry.) *)
Theorem polled_or_offered_retry :
  forall (image : Image.t) (faces : option (list Face.t))
         (retryPending debugPending : bool),
    (ImageDetailPolling.refetchInterval (Some image) = ImageDetailPolling.Every 2000
     \/ existsb offers_retry
          (elements_of (ImageDetailPolling.render false false (Some image) faces
                          retryPending debugPending)) = true)
    /\ (ImageDetailPolling.refetchInterval (Some image) = ImageDetailPolling.Every 2000
        /\ existsb offers_retry
             (elements_of (ImageDetailPolling.render false false (Some image) faces
                             retryPending debugPending)) = true
        <-> Image.processing_status image = pending).
Proof.
  intros image faces rp dp.
  unfold ImageDetailPolling.refetchInterval, ImageDetailPolling.render. simpl.
  unfold ImageDetailPolling.status_row, ImageDetailPolling.faces_block.
  destruct (Image.processing_status image); simpl; split;
    auto; split; intro H; try reflexivity; try discriminate H; auto;
    try (destruct H as [H _]; discriminate H);
    try (destruct H as [_ H]; discriminate H).
Qed.

End ImageLinks.
